(** * The Balancer Vault client of beefy-v2

    A shallow embedding of [class Vault] (the on-chain Vault interaction
    layer): response validation and decoding, the positional argument
    tuples handed to the ABI coder, and the word-offset bookkeeping of the
    zap-step builders.

    Imported services (bignumber.js, web3-eth-abi, viem, the contract
    bindings) are either given their library semantics where a property
    depends on it, or collected in the record [Services] over which the
    class is parametrised. *)

From Stdlib Require Import ZArith QArith Lia.
From Stdlib.Strings Require Import Byte.
From stdpp Require Import base option list strings pretty.

Open Scope string_scope.
Open Scope Z_scope.
Open Scope nat_scope.

(** ** Errors and fallible computations *)

(** What a method can throw.  Errors raised by the class itself from a
    plain string literal or template are [Error_new]; the one template
    that interpolates a number keeps the number; everything thrown from
    inside an imported helper is kept apart from those. *)
Inductive Error : Type :=
  | Error_new (message : string)
  | Error_UnsupportedExitKind (exitKind : Z)
      (* new Error(`Unsupported exit kind: ${exitKind}`) *)
  | Error_FunctionNotInAbi (name : string)
      (* new Error(`Function "${name}" not found in vault ABI`) *)
  | Error_getAddress (input : string)            (* viem: invalid address *)
  | Error_bigNumberToString (signed : bool)      (* helpers/big-number *)
  | Error_abiCoder                               (* web3-eth-abi *)
  | Error_call (reason : string).                (* rejected contract call *)

Inductive Result (A : Type) : Type :=
  | Ok (a : A)
  | Throw (e : Error).
Arguments Ok {A} a.
Arguments Throw {A} e.

#[global] Instance Result_ret : MRet Result := fun A a => Ok a.
#[global] Instance Result_bind : MBind Result := fun A B f m =>
  match m with
  | Ok a => f a
  | Throw e => Throw e
  end.
#[global] Instance Result_fmap : FMap Result := fun A B f m =>
  match m with
  | Ok a => Ok (f a)
  | Throw e => Throw e
  end.

(** [Array.prototype.map] with a callback that may throw: the callbacks
    run left to right and the first exception aborts the whole map. *)
Fixpoint sequence {A} (l : list (Result A)) : Result (list A) :=
  match l with
  | [] => Ok []
  | r :: rs => a ← r; as' ← sequence rs; Ok (a :: as')
  end.

Definition orThrow {A} (e : Error) (o : option A) : Result A :=
  match o with
  | Some a => Ok a
  | None => Throw e
  end.

(** ** Untyped response values

    The declared TypeScript types of the contract responses are not
    trusted by the code: each method re-checks presence and array-ness
    at run time.  A property of a response is therefore one of: not there
    ([undefined]/[null]), some value that is not an array (truthy or
    falsy), or an array. *)
Inductive JsField (A : Type) : Type :=
  | JsMissing
  | JsOther (truthy : bool)
  | JsArray (items : list A).
Arguments JsMissing {A}.
Arguments JsOther {A} truthy.
Arguments JsArray {A} items.

Definition truthy {A} (v : JsField A) : bool :=
  match v with
  | JsMissing => false
  | JsOther b => b
  | JsArray _ => true          (* every array, [] included, is truthy *)
  end.

Definition Array_isArray {A} (v : JsField A) : bool :=
  match v with
  | JsArray _ => true
  | _ => false
  end.

(** [v.length] and [v.map]/[v[i]] are only reached behind the guards
    above; off an array there is nothing to iterate. *)
Definition elements {A} (v : JsField A) : list A :=
  match v with
  | JsArray l => l
  | _ => []
  end.

(** ** bignumber.js values

    A BigNumber is a finite decimal, or one of the three non-numbers.
    Finite values are kept as rationals: [plus] and [minus] are exact in
    bignumber.js (no rounding mode applies to them). *)
Inductive BigNumber : Type :=
  | BN (value : Q)
  | BN_Infinity (negative : bool)
  | BN_NaN.

Module BigNumber.

Definition negated (x : BigNumber) : BigNumber :=
  match x with
  | BN q => BN (- q)
  | BN_Infinity s => BN_Infinity (negb s)
  | BN_NaN => BN_NaN
  end.

Definition plus (x y : BigNumber) : BigNumber :=
  match x, y with
  | BN_NaN, _ | _, BN_NaN => BN_NaN
  | BN a, BN b => BN (a + b)
  | BN _, BN_Infinity s | BN_Infinity s, BN _ => BN_Infinity s
  | BN_Infinity s, BN_Infinity t =>
      if Bool.eqb s t then BN_Infinity s else BN_NaN
  end.

Definition minus (x y : BigNumber) : BigNumber := plus x (negated y).

Definition isFinite (x : BigNumber) : bool :=
  match x with BN _ => true | _ => false end.

Definition isNaN (x : BigNumber) : bool :=
  match x with BN_NaN => true | _ => false end.

(** [x.isEqualTo(y)]: comparison by value; NaN equals nothing. *)
Definition isEqualTo (x y : BigNumber) : bool :=
  match x, y with
  | BN a, BN b => Qeq_bool a b
  | BN_Infinity s, BN_Infinity t => Bool.eqb s t
  | _, _ => false
  end.

Definition of_Z (z : Z) : BigNumber := BN (inject_Z z).

End BigNumber.

(** ** Data model (./types, ../../transact/zap/types) *)

Definition ZERO_ADDRESS : string :=
  "0x0000000000000000000000000000000000000000".

Record VaultConfig : Type := {
  vaultAddress : string;
  queryAddress : string;
}.

Record FundManagement : Type := {
  fm_sender : string;
  fm_fromInternalBalance : bool;
  fm_recipient : string;
  fm_toInternalBalance : bool;
}.

Definition queryFunds : FundManagement := {|
  fm_sender := ZERO_ADDRESS;
  fm_fromInternalBalance := false;
  fm_recipient := ZERO_ADDRESS;
  fm_toInternalBalance := false;
|}.

Module PoolTokensResult.
Record t : Type := {
  tokens : JsField string;
  balances : JsField string;
}.
End PoolTokensResult.

Module PoolTokenBalance.
Record t : Type := {
  token : string;
  balance : BigNumber;
}.
End PoolTokenBalance.

Module JoinPoolRequest.
Record t : Type := {
  assets : list string;
  maxAmountsIn : list BigNumber;
  userData : list byte;
  fromInternalBalance : bool;
}.
End JoinPoolRequest.

Module ExitPoolRequest.
Record t : Type := {
  assets : list string;
  minAmountsOut : list BigNumber;
  userData : list byte;
  toInternalBalance : bool;
}.
End ExitPoolRequest.

Module JoinPoolArgs.
Record t : Type := {
  poolId : string;
  sender : string;
  recipient : string;
  request : JoinPoolRequest.t;
}.
End JoinPoolArgs.

Module ExitPoolArgs.
Record t : Type := {
  poolId : string;
  sender : string;
  recipient : string;
  request : ExitPoolRequest.t;
}.
End ExitPoolArgs.

(** The query requests are the call arguments without sender and
    recipient; an object that carries them all the same is spread into
    the arguments like any other, so the model keeps them as optional
    properties. *)
Module QueryJoinPoolRequest.
Record t : Type := {
  poolId : string;
  request : JoinPoolRequest.t;
  sender : option string;
  recipient : option string;
}.
End QueryJoinPoolRequest.

Module QueryExitPoolRequest.
Record t : Type := {
  poolId : string;
  request : ExitPoolRequest.t;
  sender : option string;
  recipient : option string;
}.
End QueryExitPoolRequest.

Module JoinPoolResult.
Record t : Type := {
  bptOut : option string;
  amountsIn : JsField string;
}.
End JoinPoolResult.

Module ExitPoolResult.
Record t : Type := {
  bptIn : option string;
  amountsOut : JsField string;
}.
End ExitPoolResult.

Module QueryJoinPoolResponse.
Record t : Type := {
  liquidity : BigNumber;
  usedInput : list BigNumber;
  unusedInput : list BigNumber;
}.
End QueryJoinPoolResponse.

Module QueryExitPoolResponse.
Record t : Type := {
  liquidity : BigNumber;
  outputs : list BigNumber;
}.
End QueryExitPoolResponse.

Module SingleSwap.
Record t : Type := {
  poolId : string;
  kind : Z;
  assetIn : string;
  assetOut : string;
  amount : BigNumber;
  userData : list byte;
}.
End SingleSwap.

Module SwapArgs.
Record t : Type := {
  singleSwap : SingleSwap.t;
  funds : FundManagement;
  limit : BigNumber;
  deadline : Z;
}.
End SwapArgs.

Module BatchSwapStep.
Record t : Type := {
  poolId : string;
  assetInIndex : Z;
  assetOutIndex : Z;
  amount : BigNumber;
  userData : list byte;
}.
End BatchSwapStep.

Module BatchSwapArgs.
Record t : Type := {
  kind : Z;
  swaps : list BatchSwapStep.t;
  assets : list string;
  funds : FundManagement;
  limits : list BigNumber;
  deadline : Z;
}.
End BatchSwapArgs.

Module QueryBatchSwapRequest.
Record t : Type := {
  kind : Z;
  swaps : list BatchSwapStep.t;
  assets : list string;
  funds : option FundManagement;
}.
End QueryBatchSwapRequest.

Module StepToken.
Record t : Type := {
  token : string;
  index : Z;
}.
End StepToken.

Module ZapStep.
Record t : Type := {
  target : string;
  value : string;
  data : string;
  tokens : list StepToken.t;
}.
End ZapStep.

Module JoinPoolZapRequest.
Record t : Type := {
  join : JoinPoolArgs.t;
  insertBalance : bool;
}.
End JoinPoolZapRequest.

Module ExitPoolZapRequest.
Record t : Type := {
  exit : ExitPoolArgs.t;
  poolAddress : string;
  insertBalance : bool;
}.
End ExitPoolZapRequest.

Module SwapZapRequest.
Record t : Type := {
  swap : SwapArgs.t;
  insertBalance : bool;
}.
End SwapZapRequest.

Module PoolConfig.
Record token : Type := { address : string }.
Record t : Type := { tokens : list token }.
End PoolConfig.

(** Modelled from the spec: the enum [WeightedPoolExitKind] of
    ../weighted/types is missing from src/.  The spec names three exit
    kinds and gives the leading word 0 to exact-BPT-in-for-tokens-out;
    the other two follow in the order the spec lists them. *)
Module WeightedPoolExitKind.
Definition EXACT_BPT_IN_FOR_TOKENS_OUT : Z := 0.
Definition EXACT_BPT_IN_FOR_ONE_TOKEN_OUT : Z := 1.
Definition BPT_IN_FOR_EXACT_TOKENS_OUT : Z := 2.
End WeightedPoolExitKind.

(** ** Values handed to web3: [AbiEncodeArgs]

    Arguments travel as nested JS arrays (positional tuples) or objects
    of strings, numbers, booleans and byte blobs. *)
#[warnings="-register-all"]
Inductive AbiArg : Type :=
  | ArgString (s : string)
  | ArgNumber (n : Z)
  | ArgBoolean (b : bool)
  | ArgBytes (b : list byte)
  | ArgArray (items : list AbiArg)
  | ArgObject (properties : list (string * AbiArg)).

Record AbiItem : Type := {
  abi_type : string;
  abi_name : string;
}.

(** [abiCoder.decodeParameter('uint256', data)]: the leading 32-byte
    word of the blob read as a big-endian unsigned integer; a blob
    shorter than one word is refused by the coder. *)
Definition uint_of_bytes (bs : list byte) : Z :=
  fold_left (fun acc b => (acc * 256 + Z.of_N (Byte.to_N b))%Z) bs 0%Z.

Definition decodeParameter_uint256 (data : list byte) : Result Z :=
  if (length data <? 32)%nat then Throw Error_abiCoder
  else Ok (uint_of_bytes (take 32 data)).

(** [new BigNumber(v)] for a value read off a response: a property that
    is not there gives NaN, a string goes through the library's parser. *)
Definition newBigNumber (parse : string → BigNumber) (v : option string)
  : BigNumber :=
  match v with
  | Some s => parse s
  | None => BN_NaN
  end.

(** [array.findIndex(predicate)] *)
Fixpoint findIndex_from {A} (p : A → bool) (i : Z) (l : list A) : Z :=
  match l with
  | [] => (-1)%Z
  | x :: xs => if p x then i else findIndex_from p (i + 1)%Z xs
  end.

Definition findIndex {A} (p : A → bool) (l : list A) : Z :=
  findIndex_from p 0%Z l.

(** ** The contract bindings

    What [new web3.eth.Contract(...)] gives: per method, the call
    [methods.f(...).call()] resolves with the decoded answer or
    rejects. *)
Module VaultContract.
Record t : Type := {
  getPoolTokens : string → Result (option PoolTokensResult.t);
  queryBatchSwap : list AbiArg → Result (JsField string);
}.
End VaultContract.

Module QueryContract.
Record t : Type := {
  queryJoin : list AbiArg → Result (option JoinPoolResult.t);
  queryExit : list AbiArg → Result (option ExitPoolResult.t);
}.
End QueryContract.

(** ** Imported services

    What the class imports and this development does not look into. *)
Record Services : Type := {
  (* viem: checksums an address, throws on a malformed one *)
  getAddress : string → option string;
  (* bignumber.js: the string constructor *)
  BigNumber_parse : string → BigNumber;
  (* helpers/big-number *)
  bigNumberToUint256String : BigNumber → option string;
  bigNumberToInt256String : BigNumber → option string;
  (* transact/helpers/zap *)
  getInsertIndex : Z → Z;
  (* config/abi/BalancerVaultAbi and web3-eth-abi *)
  BalancerVaultAbi : list AbiItem;
  encodeFunctionCall : AbiItem → list AbiArg → Result string;
  (* the outcome of awaiting the two lazy contract factories of the
     class, [await this.getVaultContract()] and
     [await this.getQueryContract()]: the binding, or a rejection *)
  getVaultContract : Result VaultContract.t;
  getQueryContract : Result QueryContract.t;
}.

(** A binding awaited and one call made on it:
    [(await this.getVaultContract()).methods.getPoolTokens(poolId).call()]
    and its likes.  In the statements below "the call was answered"
    is one of these returning. *)
Definition vault_getPoolTokens (env : Services) (poolId : string)
  : Result (option PoolTokensResult.t) :=
  vault ← getVaultContract env;
  VaultContract.getPoolTokens vault poolId.

Definition vault_queryBatchSwap (env : Services) (call : list AbiArg)
  : Result (JsField string) :=
  vault ← getVaultContract env;
  VaultContract.queryBatchSwap vault call.

Definition query_queryJoin (env : Services) (call : list AbiArg)
  : Result (option JoinPoolResult.t) :=
  query ← getQueryContract env;
  QueryContract.queryJoin query call.

Definition query_queryExit (env : Services) (call : list AbiArg)
  : Result (option ExitPoolResult.t) :=
  query ← getQueryContract env;
  QueryContract.queryExit query call.

(** [new BigNumber(s).toNumber()] for the decimal string of a
    non-negative integer: the nearest double, ties to even, given as the
    integer it denotes.  Exact below 2^53. *)
Definition toNumber (z : Z) : Z :=
  if (z <? 2 ^ 53)%Z then z
  else
    let shift := (Z.log2 z - 52)%Z in
    let q := Z.shiftr z shift in
    let r := (z mod 2 ^ shift)%Z in
    let half := (2 ^ (shift - 1))%Z in
    let q' := if (half <? r)%Z || ((r =? half)%Z && Z.odd q) then (q + 1)%Z else q in
    Z.shiftl q' shift.

(** ** class Vault *)

Section Vault.

Variable env : Services.
Variable config : VaultConfig.

Definition invalidResult {A} : Result A := Throw (Error_new "Invalid result").

(** [bigNumberToUint256String(amount)] and
    [bigNumberToInt256String(amount)] in argument position; either
    helper may throw. *)
Definition uint256String (amount : BigNumber) : Result AbiArg :=
  ArgString <$> orThrow (Error_bigNumberToString false)
                        (bigNumberToUint256String env amount).

Definition int256String (amount : BigNumber) : Result AbiArg :=
  ArgString <$> orThrow (Error_bigNumberToString true)
                        (bigNumberToInt256String env amount).

(** [amounts.map(bigNumberToUint256String)] and
    [amounts.map(bigNumberToInt256String)] *)
Definition uint256Strings (amounts : list BigNumber) : Result (list AbiArg) :=
  sequence (uint256String <$> amounts).

Definition int256Strings (amounts : list BigNumber) : Result (list AbiArg) :=
  sequence (int256String <$> amounts).

(** *** getPoolTokens *)

(** [result?.tokens] and, behind it, [result.balances] *)
Definition result_tokens (result : option PoolTokensResult.t) : JsField string :=
  from_option PoolTokensResult.tokens JsMissing result.

Definition result_balances (result : option PoolTokensResult.t) : JsField string :=
  from_option PoolTokensResult.balances JsMissing result.

Definition getPoolTokens_invalid (result : option PoolTokensResult.t) : bool :=
  negb (truthy (result_tokens result))
  || negb (Array_isArray (result_tokens result))
  || negb (truthy (result_balances result))
  || negb (Array_isArray (result_balances result))
  || negb (length (elements (result_tokens result))
           =? length (elements (result_balances result))).

Definition getPoolTokens_then (result : option PoolTokensResult.t)
  : Result (list PoolTokenBalance.t) :=
  if getPoolTokens_invalid result then invalidResult
  else
    sequence
      (imap
         (fun index token =>
            address ← orThrow (Error_getAddress token) (getAddress env token);
            Ok {| PoolTokenBalance.token := address;
                  PoolTokenBalance.balance :=
                    newBigNumber (BigNumber_parse env)
                      (elements (result_balances result) !! index) |})
         (elements (result_tokens result))).

Definition getPoolTokens (poolId : string) : Result (list PoolTokenBalance.t) :=
  result ← vault_getPoolTokens env poolId;
  getPoolTokens_then result.

(** *** queryJoinPool *)

Definition queryJoinPool_args (request : QueryJoinPoolRequest.t) : JoinPoolArgs.t :=
  {| JoinPoolArgs.poolId := QueryJoinPoolRequest.poolId request;
     JoinPoolArgs.request := QueryJoinPoolRequest.request request;
     JoinPoolArgs.sender := ZERO_ADDRESS;
     JoinPoolArgs.recipient := ZERO_ADDRESS |}.

(** The argument list of [query.methods.queryJoin(...)]. *)
Definition queryJoinPool_call (request : QueryJoinPoolRequest.t)
  : Result (list AbiArg) :=
  let args := queryJoinPool_args request in
  amounts ← uint256Strings (JoinPoolRequest.maxAmountsIn (JoinPoolArgs.request args));
  Ok [ ArgString (JoinPoolArgs.poolId args);
       ArgString (JoinPoolArgs.sender args);
       ArgString (JoinPoolArgs.recipient args);
       ArgArray
         [ ArgArray (ArgString <$> JoinPoolRequest.assets (JoinPoolArgs.request args));
           ArgArray amounts;
           ArgBytes (JoinPoolRequest.userData (JoinPoolArgs.request args));
           ArgBoolean (JoinPoolRequest.fromInternalBalance (JoinPoolArgs.request args)) ] ].

Definition result_amountsIn (result : option JoinPoolResult.t) : JsField string :=
  from_option JoinPoolResult.amountsIn JsMissing result.

Definition queryJoinPool_invalid (request : QueryJoinPoolRequest.t)
    (result : option JoinPoolResult.t) : bool :=
  negb (bool_decide (is_Some result))
  || negb (Array_isArray (result_amountsIn result))
  || negb (length (elements (result_amountsIn result))
           =? length (JoinPoolRequest.assets (QueryJoinPoolRequest.request request))).

Definition queryJoinPool_then (request : QueryJoinPoolRequest.t)
    (result : option JoinPoolResult.t) : Result QueryJoinPoolResponse.t :=
  if queryJoinPool_invalid request result then invalidResult
  else
    let usedInput :=
      (fun amount => newBigNumber (BigNumber_parse env) (Some amount))
        <$> elements (result_amountsIn result) in
    Ok {| QueryJoinPoolResponse.liquidity :=
            newBigNumber (BigNumber_parse env) (result ≫= JoinPoolResult.bptOut);
          QueryJoinPoolResponse.usedInput := usedInput;
          QueryJoinPoolResponse.unusedInput :=
            imap
              (fun index amount =>
                 BigNumber.minus amount (default BN_NaN (usedInput !! index)))
              (JoinPoolRequest.maxAmountsIn (QueryJoinPoolRequest.request request)) |}.

Definition queryJoinPool (request : QueryJoinPoolRequest.t)
  : Result QueryJoinPoolResponse.t :=
  query ← getQueryContract env;
  call ← queryJoinPool_call request;
  result ← QueryContract.queryJoin query call;
  queryJoinPool_then request result.

(** *** queryExitPool *)

Definition queryExitPool_args (request : QueryExitPoolRequest.t) : ExitPoolArgs.t :=
  {| ExitPoolArgs.poolId := QueryExitPoolRequest.poolId request;
     ExitPoolArgs.request := QueryExitPoolRequest.request request;
     ExitPoolArgs.sender := ZERO_ADDRESS;
     ExitPoolArgs.recipient := ZERO_ADDRESS |}.

(** The two [console.debug] calls print and return nothing; the second
    one converts [minAmountsOut] once before the call does, so a
    conversion that throws does so there, with the same error. *)
Definition queryExitPool_call (request : QueryExitPoolRequest.t)
  : Result (list AbiArg) :=
  let args := queryExitPool_args request in
  _ ← uint256Strings (ExitPoolRequest.minAmountsOut (ExitPoolArgs.request args));
  amounts ← uint256Strings (ExitPoolRequest.minAmountsOut (ExitPoolArgs.request args));
  Ok [ ArgString (ExitPoolArgs.poolId args);
       ArgString (ExitPoolArgs.sender args);
       ArgString (ExitPoolArgs.recipient args);
       ArgArray
         [ ArgArray (ArgString <$> ExitPoolRequest.assets (ExitPoolArgs.request args));
           ArgArray amounts;
           ArgBytes (ExitPoolRequest.userData (ExitPoolArgs.request args));
           ArgBoolean (ExitPoolRequest.toInternalBalance (ExitPoolArgs.request args)) ] ].

Definition result_amountsOut (result : option ExitPoolResult.t) : JsField string :=
  from_option ExitPoolResult.amountsOut JsMissing result.

Definition queryExitPool_invalid (request : QueryExitPoolRequest.t)
    (result : option ExitPoolResult.t) : bool :=
  negb (bool_decide (is_Some result))
  || negb (Array_isArray (result_amountsOut result))
  || negb (length (elements (result_amountsOut result))
           =? length (ExitPoolRequest.assets (QueryExitPoolRequest.request request))).

Definition queryExitPool_then (request : QueryExitPoolRequest.t)
    (result : option ExitPoolResult.t) : Result QueryExitPoolResponse.t :=
  if queryExitPool_invalid request result then invalidResult
  else
    Ok {| QueryExitPoolResponse.liquidity :=
            newBigNumber (BigNumber_parse env) (result ≫= ExitPoolResult.bptIn);
          QueryExitPoolResponse.outputs :=
            (fun amount => newBigNumber (BigNumber_parse env) (Some amount))
              <$> elements (result_amountsOut result) |}.

Definition queryExitPool (request : QueryExitPoolRequest.t)
  : Result QueryExitPoolResponse.t :=
  query ← getQueryContract env;
  call ← queryExitPool_call request;
  result ← QueryContract.queryExit query call;
  queryExitPool_then request result.

(** *** queryBatchSwap *)

Definition fundsObject (funds : FundManagement) : AbiArg :=
  ArgObject
    [ ("sender", ArgString (fm_sender funds));
      ("fromInternalBalance", ArgBoolean (fm_fromInternalBalance funds));
      ("recipient", ArgString (fm_recipient funds));
      ("toInternalBalance", ArgBoolean (fm_toInternalBalance funds)) ].

(** [{...s, amount: bigNumberToUint256String(s.amount)}] *)
Definition swapObject (s : BatchSwapStep.t) : Result AbiArg :=
  amount ← uint256String (BatchSwapStep.amount s);
  Ok (ArgObject
        [ ("poolId", ArgString (BatchSwapStep.poolId s));
          ("assetInIndex", ArgNumber (BatchSwapStep.assetInIndex s));
          ("assetOutIndex", ArgNumber (BatchSwapStep.assetOutIndex s));
          ("amount", amount);
          ("userData", ArgBytes (BatchSwapStep.userData s)) ]).

Definition queryBatchSwap_call (request : QueryBatchSwapRequest.t)
  : Result (list AbiArg) :=
  let funds := queryFunds in
  swaps ← sequence (swapObject <$> QueryBatchSwapRequest.swaps request);
  Ok [ ArgNumber (QueryBatchSwapRequest.kind request);
       ArgArray swaps;
       ArgArray (ArgString <$> QueryBatchSwapRequest.assets request);
       fundsObject funds ].

Definition queryBatchSwap_invalid (request : QueryBatchSwapRequest.t)
    (result : JsField string) : bool :=
  negb (truthy result)
  || negb (Array_isArray result)
  || negb (length (elements result) =? length (QueryBatchSwapRequest.assets request)).

Definition queryBatchSwap_then (request : QueryBatchSwapRequest.t)
    (result : JsField string) : Result (list BigNumber) :=
  if queryBatchSwap_invalid request result then invalidResult
  else
    Ok ((fun value => newBigNumber (BigNumber_parse env) (Some value))
          <$> elements result).

Definition queryBatchSwap (request : QueryBatchSwapRequest.t)
  : Result (list BigNumber) :=
  vault ← getVaultContract env;
  call ← queryBatchSwap_call request;
  result ← VaultContract.queryBatchSwap vault call;
  queryBatchSwap_then request result.

(** *** The encoders *)

Definition getVaultFunctionAbi (name : string) : Result AbiItem :=
  orThrow (Error_FunctionNotInAbi name)
    (List.find
       (fun abi => String.eqb (abi_type abi) "function"
                   && String.eqb (abi_name abi) name)
       (BalancerVaultAbi env)).

Definition encodeJoinPool (args : JoinPoolArgs.t) : Result string :=
  methodAbi ← getVaultFunctionAbi "joinPool";
  amounts ← uint256Strings (JoinPoolRequest.maxAmountsIn (JoinPoolArgs.request args));
  encodeFunctionCall env methodAbi
    [ ArgString (JoinPoolArgs.poolId args);
      ArgString (JoinPoolArgs.sender args);
      ArgString (JoinPoolArgs.recipient args);
      ArgArray
        [ ArgArray (ArgString <$> JoinPoolRequest.assets (JoinPoolArgs.request args));
          ArgArray amounts;
          ArgBytes (JoinPoolRequest.userData (JoinPoolArgs.request args));
          ArgBoolean (JoinPoolRequest.fromInternalBalance (JoinPoolArgs.request args)) ] ].

Definition encodeExitPool (args : ExitPoolArgs.t) : Result string :=
  methodAbi ← getVaultFunctionAbi "exitPool";
  amounts ← uint256Strings (ExitPoolRequest.minAmountsOut (ExitPoolArgs.request args));
  encodeFunctionCall env methodAbi
    [ ArgString (ExitPoolArgs.poolId args);
      ArgString (ExitPoolArgs.sender args);
      ArgString (ExitPoolArgs.recipient args);
      ArgArray
        [ ArgArray (ArgString <$> ExitPoolRequest.assets (ExitPoolArgs.request args));
          ArgArray amounts;
          ArgBytes (ExitPoolRequest.userData (ExitPoolArgs.request args));
          ArgBoolean (ExitPoolRequest.toInternalBalance (ExitPoolArgs.request args)) ] ].

Definition fundsTuple (funds : FundManagement) : AbiArg :=
  ArgArray
    [ ArgString (fm_sender funds);
      ArgBoolean (fm_fromInternalBalance funds);
      ArgString (fm_recipient funds);
      ArgBoolean (fm_toInternalBalance funds) ].

(** The argument tuple [encodeSwap] passes to the coder. *)
Definition encodeSwap_tuple (args : SwapArgs.t) : Result (list AbiArg) :=
  let singleSwap := SwapArgs.singleSwap args in
  amount ← uint256String (SingleSwap.amount singleSwap);
  limit ← uint256String (SwapArgs.limit args);
  Ok [ ArgArray
         [ ArgString (SingleSwap.poolId singleSwap);
           ArgNumber (SingleSwap.kind singleSwap);
           ArgString (SingleSwap.assetIn singleSwap);
           ArgString (SingleSwap.assetOut singleSwap);
           amount;
           ArgBytes (SingleSwap.userData singleSwap) ];
       fundsTuple (SwapArgs.funds args);
       limit;
       ArgNumber (SwapArgs.deadline args) ].

Definition encodeSwap (args : SwapArgs.t) : Result string :=
  methodAbi ← getVaultFunctionAbi "swap";
  tuple ← encodeSwap_tuple args;
  encodeFunctionCall env methodAbi tuple.

Definition swapTuple (swap : BatchSwapStep.t) : Result AbiArg :=
  amount ← uint256String (BatchSwapStep.amount swap);
  Ok (ArgArray
        [ ArgString (BatchSwapStep.poolId swap);
          ArgNumber (BatchSwapStep.assetInIndex swap);
          ArgNumber (BatchSwapStep.assetOutIndex swap);
          amount;
          ArgBytes (BatchSwapStep.userData swap) ]).

(** The argument tuple [encodeBatchSwap] passes to the coder. *)
Definition encodeBatchSwap_tuple (args : BatchSwapArgs.t) : Result (list AbiArg) :=
  swaps ← sequence (swapTuple <$> BatchSwapArgs.swaps args);
  limits ← int256Strings (BatchSwapArgs.limits args);
  Ok [ ArgNumber (BatchSwapArgs.kind args);
       ArgArray swaps;
       ArgArray (ArgString <$> BatchSwapArgs.assets args);
       fundsTuple (BatchSwapArgs.funds args);
       ArgArray limits;
       ArgNumber (BatchSwapArgs.deadline args) ].

Definition encodeBatchSwap (args : BatchSwapArgs.t) : Result string :=
  methodAbi ← getVaultFunctionAbi "batchSwap";
  tuple ← encodeBatchSwap_tuple args;
  encodeFunctionCall env methodAbi tuple.

(** *** The zap builders *)

Definition getJoinPoolZap (request : JoinPoolZapRequest.t) : Result ZapStep.t :=
  let assets :=
    JoinPoolRequest.assets (JoinPoolArgs.request (JoinPoolZapRequest.join request)) in
  let maxAmountsInStartWord := (9 + Z.of_nat (length assets) + 1)%Z in
  data ← encodeJoinPool (JoinPoolZapRequest.join request);
  Ok {| ZapStep.target := vaultAddress config;
        ZapStep.value := "0";
        ZapStep.data := data;
        ZapStep.tokens :=
          if JoinPoolZapRequest.insertBalance request
          then imap
                 (fun i address =>
                    {| StepToken.token := address;
                       StepToken.index :=
                         getInsertIndex env (maxAmountsInStartWord + Z.of_nat i)%Z |})
                 assets
          else [] |}.

(** The decoded word goes through
    [new BigNumber(exitKindString).toNumber()]; the [switch] and the
    error message see the resulting double. *)
Definition getExitPoolZapTokens (request : ExitPoolZapRequest.t)
  : Result (list StepToken.t) :=
  if negb (ExitPoolZapRequest.insertBalance request) then Ok []
  else
    let exitRequest := ExitPoolArgs.request (ExitPoolZapRequest.exit request) in
    let userDataWordStart :=
      (9 + Z.of_nat (length (ExitPoolRequest.assets exitRequest)) + 1
       + Z.of_nat (length (ExitPoolRequest.minAmountsOut exitRequest)) + 1)%Z in
    exitKindString ← decodeParameter_uint256 (ExitPoolRequest.userData exitRequest);
    let exitKind := toNumber exitKindString in
    if (exitKind =? WeightedPoolExitKind.EXACT_BPT_IN_FOR_TOKENS_OUT)%Z then
      Ok [ {| StepToken.token := ExitPoolZapRequest.poolAddress request;
              StepToken.index := getInsertIndex env (userDataWordStart + 1)%Z |} ]
    else if (exitKind =? WeightedPoolExitKind.EXACT_BPT_IN_FOR_ONE_TOKEN_OUT)%Z then
      Ok [ {| StepToken.token := ExitPoolZapRequest.poolAddress request;
              StepToken.index := getInsertIndex env (userDataWordStart + 1)%Z |} ]
    else if (exitKind =? WeightedPoolExitKind.BPT_IN_FOR_EXACT_TOKENS_OUT)%Z then
      Ok [ {| StepToken.token := ExitPoolZapRequest.poolAddress request;
              StepToken.index := getInsertIndex env (userDataWordStart + 2)%Z |} ]
    else Throw (Error_UnsupportedExitKind exitKind).

Definition getExitPoolZap (request : ExitPoolZapRequest.t) : Result ZapStep.t :=
  data ← encodeExitPool (ExitPoolZapRequest.exit request);
  tokens ← getExitPoolZapTokens request;
  Ok {| ZapStep.target := vaultAddress config;
        ZapStep.value := "0";
        ZapStep.data := data;
        ZapStep.tokens := tokens |}.

Definition getSwapZap (request : SwapZapRequest.t) : Result ZapStep.t :=
  let amountInIndex := getInsertIndex env (7 + 4)%Z in
  data ← encodeSwap (SwapZapRequest.swap request);
  Ok {| ZapStep.target := vaultAddress config;
        ZapStep.value := "0";
        ZapStep.data := data;
        ZapStep.tokens :=
          if SwapZapRequest.insertBalance request
          then [ {| StepToken.token :=
                      SingleSwap.assetIn (SwapArgs.singleSwap (SwapZapRequest.swap request));
                    StepToken.index := amountInIndex |} ]
          else [] |}.

(** *** checkToken *)

Definition checkToken (pool : PoolConfig.t) (token : string)
    (label : option string) : Result unit :=
  let label := default "token" label in
  let index :=
    findIndex (fun t => String.eqb (PoolConfig.address t) token)
              (PoolConfig.tokens pool) in
  if (index =? -1)%Z
  then Throw (Error_new (label +:+ " must be a pool token"))
  else Ok tt.

End Vault.

(** ** Helpers that are not part of the class *)

(** Modelled from the spec: [getInsertIndex] of transact/helpers/zap is
    missing from src/.  By the spec a [TokenInsertion] index is a byte
    offset into the call data, the function selector occupies the first
    4 bytes, and the 32-byte words are counted after it. *)
Module Zap.
Definition getInsertIndex (position : Z) : Z := (4 + 32 * position)%Z.
End Zap.

(** Modelled from the spec: [bigNumberToUint256String] and
    [bigNumberToInt256String] of helpers/big-number are missing from
    src/.  By the spec they give the fixed-width (256-bit) unsigned,
    respectively signed, integer as a string; a value with no such
    integer has no string. *)
Module BigNumberStrings.

Definition integerValue (x : BigNumber) : option Z :=
  match x with
  | BN q => let r := Qred q in
            if (Qden r =? 1)%positive then Some (Qnum r) else None
  | _ => None
  end.

Definition bigNumberToUint256String (x : BigNumber) : option string :=
  z ← integerValue x;
  if ((0 <=? z) && (z <? 2 ^ 256))%Z then Some (pretty z) else None.

Definition bigNumberToInt256String (x : BigNumber) : option string :=
  z ← integerValue x;
  if ((- 2 ^ 255 <=? z) && (z <? 2 ^ 255))%Z then Some (pretty z) else None.

End BigNumberStrings.

(** Modelled from the spec: [createFactory] of utils/factory-utils is
    missing from src/.  By the spec a lazy factory is a single-flight
    memoization cell: the first request runs the body and stores the
    promise it returns, every later request, whether or not that promise
    has settled, is handed the stored promise.

    A client owns three such cells.  The bodies of the two contract
    factories first request the connection and, once it is there, build
    the binding.  Promises are identified by a serial number; callers
    interleave at the granularity of the event loop, so a concurrent
    execution is a sequence of requests and resumed continuations. *)
Module Factory.

Inductive factory : Type := Web3 | VaultContract | QueryContract.

#[global] Instance factory_eq_dec : EqDecision factory.
Proof. solve_decision. Defined.

Inductive event : Type :=
  | Request (f : factory)     (* some caller invokes the factory *)
  | Resume.                   (* the event loop resumes an awaiting body *)

Record client : Type := {
  cache : factory → option nat;     (* the stored promise, per cell *)
  bodies : factory → nat;           (* how often each body was entered *)
  built : factory → nat;            (* how many objects were constructed *)
  awaiting : list factory;          (* bodies suspended at their await *)
  serial : nat;                     (* next promise number *)
}.

Definition fresh : client := {|
  cache := fun _ => None;
  bodies := fun _ => 0;
  built := fun _ => 0;
  awaiting := [];
  serial := 0;
|}.

Definition bump (f : factory) (count : factory → nat) : factory → nat :=
  fun g => if decide (g = f) then S (count g) else count g.

(** One cell: hand out the stored promise, or enter the body, store
    its promise and hand that out. *)
Definition enter (f : factory) (c : client) : client * nat :=
  match cache c f with
  | Some p => (c, p)
  | None =>
      ({| cache := fun g => if decide (g = f) then Some (serial c) else cache c g;
          bodies := bump f (bodies c);
          built := built c;
          awaiting := awaiting c;
          serial := S (serial c) |},
       serial c)
  end.

Definition construct (f : factory) (c : client) : client :=
  {| cache := cache c; bodies := bodies c; built := bump f (built c);
     awaiting := awaiting c; serial := serial c |}.

Definition suspend (f : factory) (c : client) : client :=
  {| cache := cache c; bodies := bodies c; built := built c;
     awaiting := awaiting c ++ [f]; serial := serial c |}.

(** [getWeb3]: the body, [getWeb3Instance(this.chain)], constructs
    the connection at once. *)
Definition requestWeb3 (c : client) : client * nat :=
  match cache c Web3 with
  | Some p => (c, p)
  | None => let '(c', p) := enter Web3 c in (construct Web3 c', p)
  end.

(** [getVaultContract] and [getQueryContract]: the body requests the
    connection, [await this.getWeb3()], and suspends. *)
Definition requestContract (f : factory) (c : client) : client * nat :=
  match cache c f with
  | Some p => (c, p)
  | None =>
      let '(c1, p) := enter f c in
      let '(c2, _) := requestWeb3 c1 in
      (suspend f c2, p)
  end.

Definition request (f : factory) (c : client) : client * nat :=
  match f with
  | Web3 => requestWeb3 c
  | _ => requestContract f c
  end.

(** The continuation of the oldest suspended body:
    [new web3.eth.Contract(...)]. *)
Definition resume (c : client) : client :=
  match awaiting c with
  | [] => c
  | f :: rest =>
      construct f
        {| cache := cache c; bodies := bodies c; built := built c;
           awaiting := rest; serial := serial c |}
  end.

(** Running a schedule; the log records which promise each request
    was handed. *)
Fixpoint run (c : client) (schedule : list event) : client * list (factory * nat) :=
  match schedule with
  | [] => (c, [])
  | Request f :: rest =>
      let '(c', p) := request f c in
      let '(c'', log) := run c' rest in
      (c'', (f, p) :: log)
  | Resume :: rest => run (resume c) rest
  end.

Definition suspended (f : factory) (c : client) : nat :=
  length (filter (fun g => g = f) (awaiting c)).

(** Each body was entered once if its cell is filled and never
    otherwise; the connection is built inside its body; a contract
    binding is either built or its body is still suspended. *)
Record consistent (c : client) : Prop := {
  bodies_cache : ∀ f, bodies c f = if cache c f is Some _ then 1 else 0;
  built_web3 : built c Web3 = bodies c Web3;
  built_contract : ∀ f, f ≠ Web3 → built c f + suspended f c = bodies c f;
  web3_not_suspended : suspended Web3 c = 0;
}.

End Factory.

(** ** Stand-ins for the imported services

    Concrete services to run the class on examples.  The address
    normaliser accepts every string unchanged, the string constructor
    reads plain digit strings (what web3 returns for a [uint256]) and
    answers NaN otherwise, the coder returns a tag in place of the
    bytes, and the contract bindings answer with canned responses. *)
Module Fixture.

Fixpoint digits (s : string) (acc : Z) : option Z :=
  match s with
  | EmptyString => Some acc
  | String c rest =>
      let n := Z.of_N (Ascii.N_of_ascii c) in
      if ((48 <=? n) && (n <=? 57))%Z
      then digits rest (acc * 10 + (n - 48))%Z
      else None
  end.

Definition parse (s : string) : BigNumber :=
  match s with
  | EmptyString => BN_NaN
  | _ => from_option BigNumber.of_Z BN_NaN (digits s 0%Z)
  end.

Definition abi : list AbiItem :=
  [ {| abi_type := "event"; abi_name := "Swap" |};
    {| abi_type := "function"; abi_name := "batchSwap" |};
    {| abi_type := "function"; abi_name := "exitPool" |};
    {| abi_type := "function"; abi_name := "joinPool" |};
    {| abi_type := "function"; abi_name := "swap" |} ].

Record responses : Type := {
  poolTokens : option PoolTokensResult.t;
  batchSwap : JsField string;
  join : option JoinPoolResult.t;
  exit : option ExitPoolResult.t;
}.

Definition silent : responses :=
  {| poolTokens := None; batchSwap := JsMissing; join := None; exit := None |}.

Definition services (r : responses) : Services := {|
  getAddress := Some;
  BigNumber_parse := parse;
  bigNumberToUint256String := BigNumberStrings.bigNumberToUint256String;
  bigNumberToInt256String := BigNumberStrings.bigNumberToInt256String;
  getInsertIndex := Zap.getInsertIndex;
  BalancerVaultAbi := abi;
  encodeFunctionCall := fun method _ => Ok ("call:" +:+ abi_name method);
  getVaultContract :=
    Ok {| VaultContract.getPoolTokens := fun _ => Ok (poolTokens r);
          VaultContract.queryBatchSwap := fun _ => Ok (batchSwap r) |};
  getQueryContract :=
    Ok {| QueryContract.queryJoin := fun _ => Ok (join r);
          QueryContract.queryExit := fun _ => Ok (exit r) |};
|}.

Definition config : VaultConfig :=
  {| vaultAddress := "0xBA12222222228d8Ba445958a75a0704d566BF2C8";
     queryAddress := "0xE39B5e3B6D74016b2F6A9673D7d7493B6DF549d5" |}.

Definition tokenA : string := "0x00000000000000000000000000000000000000aa".
Definition tokenB : string := "0x00000000000000000000000000000000000000bb".

(** A one-word [userData] blob holding the given small discriminant. *)
Definition userDataWord (exitKind : byte) : list byte :=
  replicate 31 x00 ++ [exitKind].

End Fixture.

(** ** Shapes the validation rejects *)

(** A per-asset array that is missing, is not an array, or has not the
    expected length. *)
Definition malformed {A} (field : JsField A) (count : nat) : Prop :=
  field = JsMissing
  ∨ (∃ b, field = JsOther b)
  ∨ (∃ l, field = JsArray l ∧ length l ≠ count).

(** ** Example inputs *)

Module QueryJoinPoolExamples.

Definition request (maxAmountsIn : list BigNumber) : QueryJoinPoolRequest.t :=
  {| QueryJoinPoolRequest.poolId := "0x01";
     QueryJoinPoolRequest.sender := None;
     QueryJoinPoolRequest.recipient := None;
     QueryJoinPoolRequest.request :=
       {| JoinPoolRequest.assets := [Fixture.tokenA; Fixture.tokenB];
          JoinPoolRequest.maxAmountsIn := maxAmountsIn;
          JoinPoolRequest.userData := [];
          JoinPoolRequest.fromInternalBalance := false |} |}.

Definition env (amountsIn : list string) : Services :=
  Fixture.services
    {| Fixture.poolTokens := None;
       Fixture.batchSwap := JsMissing;
       Fixture.join :=
         Some {| JoinPoolResult.bptOut := Some "1";
                 JoinPoolResult.amountsIn := JsArray amountsIn |};
       Fixture.exit := None |}.

End QueryJoinPoolExamples.

Module QueryExamples.

Definition joinRequest : QueryJoinPoolRequest.t :=
  {| QueryJoinPoolRequest.poolId := "0x01";
     QueryJoinPoolRequest.sender := Some Fixture.tokenA;
     QueryJoinPoolRequest.recipient := Some Fixture.tokenB;
     QueryJoinPoolRequest.request :=
       {| JoinPoolRequest.assets := [Fixture.tokenA; Fixture.tokenB];
          JoinPoolRequest.maxAmountsIn := [BigNumber.of_Z 10; BigNumber.of_Z 20];
          JoinPoolRequest.userData := [];
          JoinPoolRequest.fromInternalBalance := false |} |}.

Definition exitRequest : QueryExitPoolRequest.t :=
  {| QueryExitPoolRequest.poolId := "0x01";
     QueryExitPoolRequest.sender := Some Fixture.tokenA;
     QueryExitPoolRequest.recipient := None;
     QueryExitPoolRequest.request :=
       {| ExitPoolRequest.assets := [Fixture.tokenA; Fixture.tokenB];
          ExitPoolRequest.minAmountsOut := [BigNumber.of_Z 1; BigNumber.of_Z 2];
          ExitPoolRequest.userData := Fixture.userDataWord x01;
          ExitPoolRequest.toInternalBalance := false |} |}.

Definition batchRequest : QueryBatchSwapRequest.t :=
  {| QueryBatchSwapRequest.kind := 0;
     QueryBatchSwapRequest.swaps :=
       [ {| BatchSwapStep.poolId := "0x01";
            BatchSwapStep.assetInIndex := 0;
            BatchSwapStep.assetOutIndex := 1;
            BatchSwapStep.amount := BigNumber.of_Z 5;
            BatchSwapStep.userData := [] |} ];
     QueryBatchSwapRequest.assets := [Fixture.tokenA; Fixture.tokenB];
     QueryBatchSwapRequest.funds := None |}.

(** Responses that fail the shape check: one amount for two assets, a
    truthy value that is not an array, and no result at all. *)
Definition malformedResponses : Fixture.responses :=
  {| Fixture.poolTokens := None;
     Fixture.join :=
       Some {| JoinPoolResult.bptOut := Some "1";
               JoinPoolResult.amountsIn := JsArray ["3"] |};
     Fixture.exit :=
       Some {| ExitPoolResult.bptIn := Some "1";
               ExitPoolResult.amountsOut := JsOther true |};
     Fixture.batchSwap := JsMissing |}.

End QueryExamples.

Module PoolTokensExamples.

Definition twoTokens : Fixture.responses :=
  {| Fixture.poolTokens :=
       Some {| PoolTokensResult.tokens := JsArray [Fixture.tokenB; Fixture.tokenA];
               PoolTokensResult.balances := JsArray ["7"; "9"] |};
     Fixture.batchSwap := JsMissing;
     Fixture.join := None;
     Fixture.exit := None |}.

Definition noTokens : Fixture.responses :=
  {| Fixture.poolTokens :=
       Some {| PoolTokensResult.tokens := JsArray [];
               PoolTokensResult.balances := JsArray [] |};
     Fixture.batchSwap := JsMissing;
     Fixture.join := None;
     Fixture.exit := None |}.

End PoolTokensExamples.

Module CheckTokenExamples.

Definition pool : PoolConfig.t :=
  {| PoolConfig.tokens :=
       [ {| PoolConfig.address := Fixture.tokenA |};
         {| PoolConfig.address := Fixture.tokenB |} ] |}.

Definition stranger : string := "0x00000000000000000000000000000000000000cc".

End CheckTokenExamples.

Module SwapExamples.

Definition funds : FundManagement :=
  {| fm_sender := Fixture.tokenA;
     fm_fromInternalBalance := false;
     fm_recipient := Fixture.tokenA;
     fm_toInternalBalance := false |}.

Definition swap (limit : BigNumber) : SwapArgs.t :=
  {| SwapArgs.singleSwap :=
       {| SingleSwap.poolId := "0x01";
          SingleSwap.kind := 0;
          SingleSwap.assetIn := Fixture.tokenA;
          SingleSwap.assetOut := Fixture.tokenB;
          SingleSwap.amount := BigNumber.of_Z 1000;
          SingleSwap.userData := [] |};
     SwapArgs.funds := funds;
     SwapArgs.limit := limit;
     SwapArgs.deadline := 1700000000 |}.

End SwapExamples.

Module ZapExamples.

Definition env : Services := Fixture.services Fixture.silent.

Definition join (insertBalance : bool) : JoinPoolZapRequest.t :=
  {| JoinPoolZapRequest.join :=
       {| JoinPoolArgs.poolId := "0x01";
          JoinPoolArgs.sender := Fixture.tokenA;
          JoinPoolArgs.recipient := Fixture.tokenA;
          JoinPoolArgs.request :=
            {| JoinPoolRequest.assets := [Fixture.tokenA; Fixture.tokenB];
               JoinPoolRequest.maxAmountsIn := [BigNumber.of_Z 10; BigNumber.of_Z 20];
               JoinPoolRequest.userData := [];
               JoinPoolRequest.fromInternalBalance := false |} |};
     JoinPoolZapRequest.insertBalance := insertBalance |}.

Definition poolToken : string := "0x00000000000000000000000000000000000000ff".

Definition exit (exitKind : byte) (insertBalance : bool) : ExitPoolZapRequest.t :=
  {| ExitPoolZapRequest.exit :=
       {| ExitPoolArgs.poolId := "0x01";
          ExitPoolArgs.sender := Fixture.tokenA;
          ExitPoolArgs.recipient := Fixture.tokenA;
          ExitPoolArgs.request :=
            {| ExitPoolRequest.assets := [Fixture.tokenA; Fixture.tokenB];
               ExitPoolRequest.minAmountsOut := [BigNumber.of_Z 1; BigNumber.of_Z 2];
               ExitPoolRequest.userData := Fixture.userDataWord exitKind;
               ExitPoolRequest.toInternalBalance := false |} |};
     ExitPoolZapRequest.poolAddress := poolToken;
     ExitPoolZapRequest.insertBalance := insertBalance |}.

Definition swap (insertBalance : bool) : SwapZapRequest.t :=
  {| SwapZapRequest.swap := SwapExamples.swap (BigNumber.of_Z 1);
     SwapZapRequest.insertBalance := insertBalance |}.

End ZapExamples.

Module FactoryExamples.

(** Two callers ask for the vault binding and two for the query binding
    while nothing has settled yet; one also asks for the connection. *)
Definition schedule : list Factory.event :=
  [ Factory.Request Factory.VaultContract;
    Factory.Request Factory.QueryContract;
    Factory.Request Factory.VaultContract;
    Factory.Resume;
    Factory.Request Factory.Web3;
    Factory.Request Factory.QueryContract;
    Factory.Resume ].

End FactoryExamples.

Module SenderExamples.

(** A query binding that rejects every call whose sender or recipient
    is not the zero address. *)
Definition checked {A} (answer : A) (call : list AbiArg) : Result A :=
  match call with
  | [_; ArgString sender; ArgString recipient; _] =>
      if String.eqb sender ZERO_ADDRESS && String.eqb recipient ZERO_ADDRESS
      then Ok answer
      else Throw (Error_call "sender or recipient is not the zero address")
  | _ => Throw (Error_call "arguments")
  end.

Definition query : QueryContract.t :=
  {| QueryContract.queryJoin :=
       checked (Some {| JoinPoolResult.bptOut := Some "1";
                        JoinPoolResult.amountsIn := JsArray ["3"; "4"] |});
     QueryContract.queryExit :=
       checked (Some {| ExitPoolResult.bptIn := Some "1";
                        ExitPoolResult.amountsOut := JsArray ["5"; "6"] |}) |}.

Definition env : Services :=
  {| getAddress := Some;
     BigNumber_parse := Fixture.parse;
     bigNumberToUint256String := BigNumberStrings.bigNumberToUint256String;
     bigNumberToInt256String := BigNumberStrings.bigNumberToInt256String;
     getInsertIndex := Zap.getInsertIndex;
     BalancerVaultAbi := Fixture.abi;
     encodeFunctionCall := fun method _ => Ok ("call:" +:+ abi_name method);
     getVaultContract := Throw (Error_call "no vault binding");
     getQueryContract := Ok query |}.

End SenderExamples.

Module LimitExamples.

(** A coder that gives back the limit of a swap, its third argument. *)
Definition env : Services :=
  {| getAddress := Some;
     BigNumber_parse := Fixture.parse;
     bigNumberToUint256String := BigNumberStrings.bigNumberToUint256String;
     bigNumberToInt256String := BigNumberStrings.bigNumberToInt256String;
     getInsertIndex := Zap.getInsertIndex;
     BalancerVaultAbi := Fixture.abi;
     encodeFunctionCall := fun _ arguments =>
       match arguments !! 2 with
       | Some (ArgString limit) => Ok limit
       | _ => Throw Error_abiCoder
       end;
     getVaultContract := Throw (Error_call "no vault binding");
     getQueryContract := Throw (Error_call "no query binding") |}.

End LimitExamples.

(** ** Vocabulary of the further properties *)

(** An ABI entry that [getVaultFunctionAbi] accepts for a name. *)
Definition is_function (name : string) (abi : AbiItem) : Prop :=
  abi_type abi = "function" ∧ abi_name abi = name.

Module MoreQueryExamples.

(** A join whose second maximum is negative, which no unsigned string
    can carry, and a join with three maxima for two assets. *)
Definition joinRequest (maxAmountsIn : list BigNumber) : QueryJoinPoolRequest.t :=
  {| QueryJoinPoolRequest.poolId := "0x01";
     QueryJoinPoolRequest.sender := None;
     QueryJoinPoolRequest.recipient := None;
     QueryJoinPoolRequest.request :=
       {| JoinPoolRequest.assets := [Fixture.tokenA; Fixture.tokenB];
          JoinPoolRequest.maxAmountsIn := maxAmountsIn;
          JoinPoolRequest.userData := [];
          JoinPoolRequest.fromInternalBalance := false |} |}.

(** Well-shaped answers; the join and the exit answer carry no
    liquidity amount. *)
Definition responses : Fixture.responses :=
  {| Fixture.poolTokens := None;
     Fixture.join :=
       Some {| JoinPoolResult.bptOut := None;
               JoinPoolResult.amountsIn := JsArray ["30"; "4"] |};
     Fixture.exit :=
       Some {| ExitPoolResult.bptIn := None;
               ExitPoolResult.amountsOut := JsArray ["5"; "6"] |};
     Fixture.batchSwap := JsArray ["5"; "7"] |}.

Definition env : Services := Fixture.services responses.

End MoreQueryExamples.

Module RefusedExamples.

(** Requests with an amount that has no unsigned string. *)
Definition exitRequest : QueryExitPoolRequest.t :=
  {| QueryExitPoolRequest.poolId := "0x01";
     QueryExitPoolRequest.sender := None;
     QueryExitPoolRequest.recipient := None;
     QueryExitPoolRequest.request :=
       {| ExitPoolRequest.assets := [Fixture.tokenA; Fixture.tokenB];
          ExitPoolRequest.minAmountsOut := [BigNumber.of_Z 1; BN_NaN];
          ExitPoolRequest.userData := Fixture.userDataWord x01;
          ExitPoolRequest.toInternalBalance := false |} |}.

Definition batchRequest : QueryBatchSwapRequest.t :=
  {| QueryBatchSwapRequest.kind := 0;
     QueryBatchSwapRequest.swaps :=
       [ {| BatchSwapStep.poolId := "0x01";
            BatchSwapStep.assetInIndex := 0;
            BatchSwapStep.assetOutIndex := 1;
            BatchSwapStep.amount := BigNumber.of_Z (-5);
            BatchSwapStep.userData := [] |} ];
     QueryBatchSwapRequest.assets := [Fixture.tokenA; Fixture.tokenB];
     QueryBatchSwapRequest.funds := Some SwapExamples.funds |}.

End RefusedExamples.

Module BatchFundsExamples.

(** A vault binding that answers a batch swap only when the funds it is
    handed are the query funds, and a request that carries funds of its
    own. *)
Definition vault : VaultContract.t :=
  {| VaultContract.getPoolTokens := fun _ => Ok None;
     VaultContract.queryBatchSwap := fun call =>
       match call !! 3 with
       | Some (ArgObject
                 [ (_, ArgString sender); (_, ArgBoolean false);
                   (_, ArgString recipient); (_, ArgBoolean false) ]) =>
           if String.eqb sender ZERO_ADDRESS && String.eqb recipient ZERO_ADDRESS
           then Ok (JsArray ["5"; "7"])
           else Throw (Error_call "funds")
       | _ => Throw (Error_call "funds")
       end |}.

Definition env : Services :=
  {| getAddress := Some;
     BigNumber_parse := Fixture.parse;
     bigNumberToUint256String := BigNumberStrings.bigNumberToUint256String;
     bigNumberToInt256String := BigNumberStrings.bigNumberToInt256String;
     getInsertIndex := Zap.getInsertIndex;
     BalancerVaultAbi := Fixture.abi;
     encodeFunctionCall := fun method _ => Ok ("call:" +:+ abi_name method);
     getVaultContract := Ok vault;
     getQueryContract := Throw (Error_call "no query binding") |}.

Definition request : QueryBatchSwapRequest.t :=
  {| QueryBatchSwapRequest.kind := 0;
     QueryBatchSwapRequest.swaps :=
       [ {| BatchSwapStep.poolId := "0x01";
            BatchSwapStep.assetInIndex := 0;
            BatchSwapStep.assetOutIndex := 1;
            BatchSwapStep.amount := BigNumber.of_Z 5;
            BatchSwapStep.userData := [] |} ];
     QueryBatchSwapRequest.assets := [Fixture.tokenA; Fixture.tokenB];
     QueryBatchSwapRequest.funds := Some SwapExamples.funds |}.

End BatchFundsExamples.

Module AbiExamples.

(** Services whose vault ABI has events only. *)
Definition withoutFunctions : Services :=
  {| getAddress := Some;
     BigNumber_parse := Fixture.parse;
     bigNumberToUint256String := BigNumberStrings.bigNumberToUint256String;
     bigNumberToInt256String := BigNumberStrings.bigNumberToInt256String;
     getInsertIndex := Zap.getInsertIndex;
     BalancerVaultAbi :=
       [ {| abi_type := "event"; abi_name := "swap" |};
         {| abi_type := "event"; abi_name := "joinPool" |} ];
     encodeFunctionCall := fun method _ => Ok ("call:" +:+ abi_name method);
     getVaultContract :=
       Ok {| VaultContract.getPoolTokens := fun _ => Ok None;
             VaultContract.queryBatchSwap := fun _ => Ok JsMissing |};
     getQueryContract :=
       Ok {| QueryContract.queryJoin := fun _ => Ok None;
             QueryContract.queryExit := fun _ => Ok None |} |}.

Definition joinArgs (sender recipient : string) (maxAmountsIn : list BigNumber)
  : JoinPoolArgs.t :=
  {| JoinPoolArgs.poolId := "0x01";
     JoinPoolArgs.sender := sender;
     JoinPoolArgs.recipient := recipient;
     JoinPoolArgs.request :=
       {| JoinPoolRequest.assets := [Fixture.tokenA; Fixture.tokenB];
          JoinPoolRequest.maxAmountsIn := maxAmountsIn;
          JoinPoolRequest.userData := [];
          JoinPoolRequest.fromInternalBalance := false |} |}.

Definition batchArgs (amount : BigNumber) (limits : list BigNumber) : BatchSwapArgs.t :=
  {| BatchSwapArgs.kind := 0;
     BatchSwapArgs.swaps :=
       [ {| BatchSwapStep.poolId := "0x01";
            BatchSwapStep.assetInIndex := 0;
            BatchSwapStep.assetOutIndex := 1;
            BatchSwapStep.amount := amount;
            BatchSwapStep.userData := [] |} ];
     BatchSwapArgs.assets := [Fixture.tokenA; Fixture.tokenB];
     BatchSwapArgs.funds := SwapExamples.funds;
     BatchSwapArgs.limits := limits;
     BatchSwapArgs.deadline := 1700000000 |}.

End AbiExamples.

Module AddressExamples.

(** Services whose address normaliser refuses everything but strings
    of 42 characters, and a vault answer whose second token is too
    short. *)
Definition strict : Services :=
  {| getAddress := fun s => if String.length s =? 42 then Some s else None;
     BigNumber_parse := Fixture.parse;
     bigNumberToUint256String := BigNumberStrings.bigNumberToUint256String;
     bigNumberToInt256String := BigNumberStrings.bigNumberToInt256String;
     getInsertIndex := Zap.getInsertIndex;
     BalancerVaultAbi := Fixture.abi;
     encodeFunctionCall := fun method _ => Ok ("call:" +:+ abi_name method);
     getVaultContract :=
       Ok {| VaultContract.getPoolTokens := fun _ =>
               Ok (Some {| PoolTokensResult.tokens :=
                             JsArray [Fixture.tokenA; "0xabc"; "0xdef"];
                           PoolTokensResult.balances := JsArray ["1"; "2"; "3"] |});
             VaultContract.queryBatchSwap := fun _ => Ok JsMissing |};
     getQueryContract :=
       Ok {| QueryContract.queryJoin := fun _ => Ok None;
             QueryContract.queryExit := fun _ => Ok None |} |}.

End AddressExamples.

Module DuplicateAssetExamples.

(** A join that names the same asset twice. *)
Definition join : JoinPoolZapRequest.t :=
  {| JoinPoolZapRequest.join :=
       {| JoinPoolArgs.poolId := "0x01";
          JoinPoolArgs.sender := Fixture.tokenA;
          JoinPoolArgs.recipient := Fixture.tokenA;
          JoinPoolArgs.request :=
            {| JoinPoolRequest.assets := [Fixture.tokenA; Fixture.tokenA];
               JoinPoolRequest.maxAmountsIn := [BigNumber.of_Z 10; BigNumber.of_Z 20];
               JoinPoolRequest.userData := [];
               JoinPoolRequest.fromInternalBalance := false |} |};
     JoinPoolZapRequest.insertBalance := true |}.

End DuplicateAssetExamples.

(** A filled factory cell implies a filled connection cell. *)
Definition connected (c : Factory.client) : Prop :=
  ∀ f p, Factory.cache c f = Some p → is_Some (Factory.cache c Factory.Web3).

(** ** The empty-state screen of the dashboard

    [NoResults] and [Text] as functions of what they read: the error
    flag of the props and the wallet address selected from the store.
    The translation function is a parameter; elements that take no part
    in a decision (sections, images, the divider, the address input) are
    left out of the rendered view. *)
Module NoResults.

(** [walletAddress] is a string, [null] or [undefined]; only a
    non-empty string is truthy. *)
Definition truthy (walletAddress : option string) : bool :=
  match walletAddress with
  | Some (String _ _) => true
  | Some EmptyString | None => false
  end.

Inductive action : Type :=
  | doDisconnectWallet
  | askForWalletConnection.

(** The callback: what one click dispatches. *)
Definition handleWalletConnect (walletAddress : option string) : action :=
  if truthy walletAddress then doDisconnectWallet else askForWalletConnection.

Inductive control : Type :=
  | ButtonLink (to : string) (label : string)
  | Button (onClick : action) (label : string).

Record view : Type := {
  title : string;
  text : option string;
  actions : control;
}.

Definition render (t : string → string) (error : bool)
    (walletAddress : option string) : view :=
  {| title :=
       if error then t "Dashboard-Invalid-Address"
       else if truthy walletAddress then t "Dashboard-NoData"
       else t "Dashboard-NoAddress";
     text :=
       if error then Some (t "Dashboard-Invalid")
       else if truthy walletAddress then Some (t "Dashboard-NoVaults")
       else None;
     actions :=
       if truthy walletAddress
       then ButtonLink "/" (t "NoResults-ViewAllVaults")
       else Button (handleWalletConnect walletAddress) (t "NoResults-ConnectWallet") |}.

End NoResults.

(** ** Generic facts about [sequence] *)

Lemma sequence_Ok_Forall2 {A} (l : list (Result A)) (out : list A) :
  sequence l = Ok out ↔ Forall2 (fun r a => r = Ok a) l out.
Proof.
  revert out. induction l as [|r rs IH]; intros out; simpl.
  - split.
    + intros [= <-]. constructor.
    + intros H. inversion H. reflexivity.
  - destruct r as [a|e]; simpl.
    + destruct (sequence rs) as [as'|e'] eqn:Hrs; simpl.
      * split.
        -- intros [= <-]. constructor; [reflexivity|]. by apply IH.
        -- intros H. inversion H as [|? b ? bs Hb Hbs]; subst.
           injection Hb as <-. apply IH in Hbs. by injection Hbs as <-.
      * split; [discriminate|].
        intros H. inversion H as [|? b ? bs Hb Hbs]; subst.
        apply IH in Hbs. discriminate.
    + split; [discriminate|].
      intros H. inversion H as [|? b ? bs Hb Hbs]; subst. discriminate.
Qed.

Lemma sequence_Ok_length {A} (l : list (Result A)) out :
  sequence l = Ok out → length out = length l.
Proof.
  intros H%sequence_Ok_Forall2. symmetry. by eapply Forall2_length.
Qed.

Lemma sequence_Ok_lookup {A} (l : list (Result A)) out i r :
  sequence l = Ok out → l !! i = Some r → ∃ a, r = Ok a ∧ out !! i = Some a.
Proof.
  intros H%sequence_Ok_Forall2 Hi.
  destruct (Forall2_lookup_l _ _ _ _ _ H Hi) as (a & Ha & Hr). eauto.
Qed.

Lemma sequence_fmap_Ok {A B} (f : A → B) (l : list A) :
  sequence ((fun a => Ok (f a)) <$> l) = Ok (f <$> l).
Proof.
  induction l as [|a l IH]; simpl; [reflexivity|].
  change (list_fmap A (Result B) (λ a0 : A, Ok (f a0)) l)
    with ((λ a0 : A, Ok (f a0)) <$> l).
  by rewrite IH.
Qed.

Lemma sequence_Throw_elem {A} (l : list (Result A)) e :
  sequence l = Throw e → Throw e ∈ l.
Proof.
  induction l as [|r rs IH]; simpl; [discriminate|].
  destruct r as [a|e']; simpl.
  - destruct (sequence rs) as [as'|e''] eqn:Hrs; simpl; [discriminate|].
    intros [= ->]. right. by apply IH.
  - intros [= ->]. left.
Qed.

Lemma bind_Ok_inv {A B} (m : Result A) (k : A → Result B) (b : B) :
  m ≫= k = Ok b → ∃ a, m = Ok a ∧ k a = Ok b.
Proof. destruct m as [a|e]; simpl; [eauto | discriminate]. Qed.

Lemma bind_Throw_inv {A B} (m : Result A) (k : A → Result B) (e : Error) :
  m ≫= k = Throw e → m = Throw e ∨ ∃ a, m = Ok a ∧ k a = Throw e.
Proof. destruct m as [a|e']; simpl; [eauto | intros [= ->]; by left]. Qed.

Lemma fmap_Ok_inv {A B} (f : A → B) (m : Result A) (b : B) :
  f <$> m = Ok b → ∃ a, m = Ok a ∧ b = f a.
Proof. destruct m as [a|e]; simpl; [intros [= <-]; eauto | discriminate]. Qed.

(** ** bignumber.js arithmetic *)

Lemma BigNumber_plus_minus_cancel (m u : BigNumber) :
  BigNumber.isFinite u = true →
  BigNumber.isNaN m = false →
  BigNumber.isEqualTo (BigNumber.plus u (BigNumber.minus m u)) m = true.
Proof.
  destruct u as [a| |]; [intros _|discriminate..].
  destruct m as [b|s|]; [intros _|intros _|discriminate]; simpl.
  - apply Qeq_bool_iff. ring.
  - by destruct s.
Qed.

(** Off the finite numbers the sum does not come back. *)
Lemma BigNumber_plus_minus_NaN (m : BigNumber) :
  BigNumber.isEqualTo (BigNumber.plus BN_NaN (BigNumber.minus m BN_NaN)) m = false.
Proof. by destruct m. Qed.

(** ** queryJoinPool *)

Section QueryJoinPool.

Variable env : Services.

Lemma queryJoinPool_Ok_inv request response :
  queryJoinPool env request = Ok response →
  ∃ call result,
    queryJoinPool_call env request = Ok call
    ∧ query_queryJoin env call = Ok result
    ∧ queryJoinPool_then env request result = Ok response.
Proof.
  unfold queryJoinPool.
  intros (query & Hquery & H)%bind_Ok_inv.
  apply bind_Ok_inv in H as (call & Hcall & H).
  apply bind_Ok_inv in H as (result & Hresult & H).
  exists call, result. split; [done|]. split; [|done].
  unfold query_queryJoin. by rewrite Hquery.
Qed.

Lemma queryJoinPool_then_Ok request result response :
  queryJoinPool_then env request result = Ok response →
  ∃ amountsIn,
    result_amountsIn result = JsArray amountsIn
    ∧ length amountsIn
      = length (JoinPoolRequest.assets (QueryJoinPoolRequest.request request))
    ∧ QueryJoinPoolResponse.usedInput response
      = (fun amount => BigNumber_parse env amount) <$> amountsIn
    ∧ QueryJoinPoolResponse.unusedInput response
      = imap
          (fun index amount =>
             BigNumber.minus amount
               (default BN_NaN
                  (((fun amount => BigNumber_parse env amount) <$> amountsIn) !! index)))
          (JoinPoolRequest.maxAmountsIn (QueryJoinPoolRequest.request request)).
Proof.
  unfold queryJoinPool_then, queryJoinPool_invalid, invalidResult.
  destruct (result_amountsIn result) as [|b|amountsIn] eqn:Hfield; simpl.
  - rewrite orb_true_r. discriminate.
  - rewrite orb_true_r. discriminate.
  - rewrite orb_false_r.
    destruct (bool_decide (is_Some result)); simpl; [|discriminate].
    destruct (length amountsIn =? _) eqn:Hlen; simpl; [|discriminate].
    intros [= <-]. exists amountsIn. simpl.
    by apply Nat.eqb_eq in Hlen.
Qed.

(** C1, amended: whenever [queryJoinPool] returns, [usedInput] has one
    entry per asset and [unusedInput] one entry per element of
    [maxAmountsIn]; at every asset index [i] where [maxAmountsIn]
    has an entry, [unusedInput[i]] is [maxAmountsIn[i] - usedInput[i]],
    and [usedInput[i] + unusedInput[i]] equals [maxAmountsIn[i]]
    exactly as soon as the used amount is a finite number and the
    maximum is a number. *)
Theorem queryJoinPool_used_plus_unused request response i m :
  queryJoinPool env request = Ok response →
  i < length (JoinPoolRequest.assets (QueryJoinPoolRequest.request request)) →
  JoinPoolRequest.maxAmountsIn (QueryJoinPoolRequest.request request) !! i = Some m →
  length (QueryJoinPoolResponse.usedInput response)
  = length (JoinPoolRequest.assets (QueryJoinPoolRequest.request request))
  ∧ length (QueryJoinPoolResponse.unusedInput response)
    = length (JoinPoolRequest.maxAmountsIn (QueryJoinPoolRequest.request request))
  ∧ ∃ u r,
      QueryJoinPoolResponse.usedInput response !! i = Some u
      ∧ QueryJoinPoolResponse.unusedInput response !! i = Some r
      ∧ r = BigNumber.minus m u
      ∧ (BigNumber.isFinite u = true →
         BigNumber.isNaN m = false →
         BigNumber.isEqualTo (BigNumber.plus u r) m = true).
Proof.
  intros (call & result & _ & _ & Hthen)%queryJoinPool_Ok_inv Hi Hm.
  apply queryJoinPool_then_Ok in Hthen as (amountsIn & _ & Hlen & -> & ->).
  rewrite length_fmap, length_imap.
  split; [done|]. split; [done|].
  destruct (lookup_lt_is_Some_2 amountsIn i) as [a Ha]; [lia|].
  exists (BigNumber_parse env a), (BigNumber.minus m (BigNumber_parse env a)).
  rewrite list_lookup_imap, list_lookup_fmap, Hm, Ha. simpl.
  repeat split. apply BigNumber_plus_minus_cancel.
Qed.

End QueryJoinPool.

(** C1 as stated fails.  Two assets with a single maximum: the two
    returned amounts pass the length check against the assets, and asset
    index 1 has a used amount but neither a maximum nor an unused
    amount.  And a returned amount that is no number passes the check
    too and leaves a sum that equals nothing. *)
Lemma queryJoinPool_sum_counterexample :
  (∃ response,
      queryJoinPool (QueryJoinPoolExamples.env ["3"; "4"])
        (QueryJoinPoolExamples.request [BigNumber.of_Z 10]) = Ok response
      ∧ QueryJoinPoolResponse.usedInput response !! 1 = Some (BigNumber.of_Z 4)
      ∧ QueryJoinPoolResponse.unusedInput response !! 1 = None)
  ∧ (∃ response u r,
        queryJoinPool (QueryJoinPoolExamples.env ["3"; "four"])
          (QueryJoinPoolExamples.request [BigNumber.of_Z 10; BigNumber.of_Z 20])
        = Ok response
        ∧ QueryJoinPoolResponse.usedInput response !! 1 = Some u
        ∧ QueryJoinPoolResponse.unusedInput response !! 1 = Some r
        ∧ BigNumber.isEqualTo (BigNumber.plus u r) (BigNumber.of_Z 20) = false).
Proof.
  split.
  - eexists. split; [reflexivity|]. split; reflexivity.
  - eexists _, _, _. split; [reflexivity|].
    repeat split; reflexivity.
Qed.

Lemma queryJoinPool_used_plus_unused_witness :
  let env := QueryJoinPoolExamples.env ["3"; "4"] in
  let request := QueryJoinPoolExamples.request [BigNumber.of_Z 10; BigNumber.of_Z 20] in
  let response :=
    {| QueryJoinPoolResponse.liquidity := BigNumber.of_Z 1;
       QueryJoinPoolResponse.usedInput := [BigNumber.of_Z 3; BigNumber.of_Z 4];
       QueryJoinPoolResponse.unusedInput :=
         [BigNumber.minus (BigNumber.of_Z 10) (BigNumber.of_Z 3);
          BigNumber.minus (BigNumber.of_Z 20) (BigNumber.of_Z 4)] |} in
  queryJoinPool env request = Ok response
  ∧ ∃ u r,
      QueryJoinPoolResponse.usedInput response !! 1 = Some u
      ∧ QueryJoinPoolResponse.unusedInput response !! 1 = Some r
      ∧ r = BigNumber.minus (BigNumber.of_Z 20) u
      ∧ (BigNumber.isFinite u = true →
         BigNumber.isNaN (BigNumber.of_Z 20) = false →
         BigNumber.isEqualTo (BigNumber.plus u r) (BigNumber.of_Z 20) = true).
Proof.
  intros env request response.
  assert (Hrun : queryJoinPool env request = Ok response) by reflexivity.
  split; [exact Hrun|].
  apply (queryJoinPool_used_plus_unused env request response 1 (BigNumber.of_Z 20) Hrun);
    [simpl; lia | reflexivity].
Defined.

(** ** The shape check of the three simulations *)

Lemma malformed_invalid {A} (field : JsField A) (count : nat) :
  malformed field count →
  negb (Array_isArray field) || negb (length (elements field) =? count) = true.
Proof.
  intros [-> | [[b ->] | (l & -> & Hlen)]]; simpl; try reflexivity.
  by apply negb_true_iff, Nat.eqb_neq.
Qed.

Lemma invalid_malformed {A} (field : JsField A) (count : nat) :
  negb (Array_isArray field) || negb (length (elements field) =? count) = true →
  malformed field count.
Proof.
  destruct field as [|b|l]; simpl.
  - intros _. by left.
  - intros _. right. left. eauto.
  - intros H%negb_true_iff%Nat.eqb_neq. right. right. eauto.
Qed.

Lemma queryJoinPool_then_malformed env request result :
  malformed (result_amountsIn result)
    (length (JoinPoolRequest.assets (QueryJoinPoolRequest.request request))) →
  queryJoinPool_then env request result = Throw (Error_new "Invalid result").
Proof.
  intros H%malformed_invalid.
  unfold queryJoinPool_then, queryJoinPool_invalid.
  by rewrite <- orb_assoc, H, orb_true_r.
Qed.

Lemma queryExitPool_then_malformed env request result :
  malformed (result_amountsOut result)
    (length (ExitPoolRequest.assets (QueryExitPoolRequest.request request))) →
  queryExitPool_then env request result = Throw (Error_new "Invalid result").
Proof.
  intros H%malformed_invalid.
  unfold queryExitPool_then, queryExitPool_invalid.
  by rewrite <- orb_assoc, H, orb_true_r.
Qed.

Lemma queryBatchSwap_then_malformed env request result :
  malformed result (length (QueryBatchSwapRequest.assets request)) →
  queryBatchSwap_then env request result = Throw (Error_new "Invalid result").
Proof.
  intros H%malformed_invalid.
  unfold queryBatchSwap_then, queryBatchSwap_invalid.
  by rewrite <- orb_assoc, H, orb_true_r.
Qed.

(** C5: in each of the three simulations, when the call has been sent
    and the per-asset amounts of its response are missing (with the
    whole result or alone), are not an array, or are an array whose
    length is not the number of assets of the request, the operation
    throws "Invalid result"; it returns no value. *)
Theorem query_malformed_response_is_invalid (env : Services) :
  (∀ request call result,
      queryJoinPool_call env request = Ok call →
      query_queryJoin env call = Ok result →
      malformed (result_amountsIn result)
        (length (JoinPoolRequest.assets (QueryJoinPoolRequest.request request))) →
      queryJoinPool env request = Throw (Error_new "Invalid result"))
  ∧ (∀ request call result,
        queryExitPool_call env request = Ok call →
        query_queryExit env call = Ok result →
        malformed (result_amountsOut result)
          (length (ExitPoolRequest.assets (QueryExitPoolRequest.request request))) →
        queryExitPool env request = Throw (Error_new "Invalid result"))
  ∧ (∀ request call result,
        queryBatchSwap_call env request = Ok call →
        vault_queryBatchSwap env call = Ok result →
        malformed result (length (QueryBatchSwapRequest.assets request)) →
        queryBatchSwap env request = Throw (Error_new "Invalid result")).
Proof.
  repeat split; intros request call result Hcall Hresult Hbad.
  - apply bind_Ok_inv in Hresult as (query & Hquery & Hresult).
    unfold queryJoinPool. rewrite Hquery. simpl. rewrite Hcall. simpl.
    rewrite Hresult. simpl. by apply queryJoinPool_then_malformed.
  - apply bind_Ok_inv in Hresult as (query & Hquery & Hresult).
    unfold queryExitPool. rewrite Hquery. simpl. rewrite Hcall. simpl.
    rewrite Hresult. simpl. by apply queryExitPool_then_malformed.
  - apply bind_Ok_inv in Hresult as (vault & Hvault & Hresult).
    unfold queryBatchSwap. rewrite Hvault. simpl. rewrite Hcall. simpl.
    rewrite Hresult. simpl. by apply queryBatchSwap_then_malformed.
Qed.

Lemma query_malformed_response_is_invalid_witness :
  let env := Fixture.services QueryExamples.malformedResponses in
  queryJoinPool env QueryExamples.joinRequest = Throw (Error_new "Invalid result")
  ∧ queryExitPool env QueryExamples.exitRequest = Throw (Error_new "Invalid result")
  ∧ queryBatchSwap env QueryExamples.batchRequest = Throw (Error_new "Invalid result").
Proof.
  intros env.
  destruct (query_malformed_response_is_invalid env) as (Hjoin & Hexit & Hbatch).
  split; [|split].
  - eapply Hjoin; [reflexivity | reflexivity |].
    right. right. eexists. split; [reflexivity | simpl; lia].
  - eapply Hexit; [reflexivity | reflexivity |].
    right. left. eexists. reflexivity.
  - eapply Hbatch; [reflexivity | reflexivity |].
    by left.
Defined.

(** ** Sender and recipient of the simulated join and exit *)

Lemma queryJoinPool_call_Ok_inv env request call :
  queryJoinPool_call env request = Ok call →
  ∃ amounts,
    uint256Strings env (JoinPoolRequest.maxAmountsIn (QueryJoinPoolRequest.request request))
    = Ok amounts
    ∧ call
      = [ ArgString (QueryJoinPoolRequest.poolId request);
          ArgString ZERO_ADDRESS;
          ArgString ZERO_ADDRESS;
          ArgArray
            [ ArgArray (ArgString <$> JoinPoolRequest.assets (QueryJoinPoolRequest.request request));
              ArgArray amounts;
              ArgBytes (JoinPoolRequest.userData (QueryJoinPoolRequest.request request));
              ArgBoolean (JoinPoolRequest.fromInternalBalance (QueryJoinPoolRequest.request request)) ] ].
Proof.
  unfold queryJoinPool_call. simpl.
  intros (amounts & Hamounts & [= <-])%bind_Ok_inv. eauto.
Qed.

Lemma queryExitPool_call_Ok_inv env request call :
  queryExitPool_call env request = Ok call →
  ∃ amounts,
    uint256Strings env (ExitPoolRequest.minAmountsOut (QueryExitPoolRequest.request request))
    = Ok amounts
    ∧ call
      = [ ArgString (QueryExitPoolRequest.poolId request);
          ArgString ZERO_ADDRESS;
          ArgString ZERO_ADDRESS;
          ArgArray
            [ ArgArray (ArgString <$> ExitPoolRequest.assets (QueryExitPoolRequest.request request));
              ArgArray amounts;
              ArgBytes (ExitPoolRequest.userData (QueryExitPoolRequest.request request));
              ArgBoolean (ExitPoolRequest.toInternalBalance (QueryExitPoolRequest.request request)) ] ].
Proof.
  unfold queryExitPool_call. simpl.
  intros (logged & _ & H)%bind_Ok_inv.
  apply bind_Ok_inv in H as (amounts & Hamounts & [= <-]). eauto.
Qed.

(** The argument list built for the join and the exit simulation has
    the zero address in the sender and in the recipient position, and
    is the same whatever sender or recipient the request itself
    carries. *)
Lemma query_call_sender_recipient_zero (env : Services) :
  (∀ request call,
      queryJoinPool_call env request = Ok call →
      call !! 1 = Some (ArgString ZERO_ADDRESS)
      ∧ call !! 2 = Some (ArgString ZERO_ADDRESS))
  ∧ (∀ request call,
        queryExitPool_call env request = Ok call →
        call !! 1 = Some (ArgString ZERO_ADDRESS)
        ∧ call !! 2 = Some (ArgString ZERO_ADDRESS))
  ∧ (∀ poolId request sender recipient sender' recipient',
        queryJoinPool_call env
          {| QueryJoinPoolRequest.poolId := poolId;
             QueryJoinPoolRequest.request := request;
             QueryJoinPoolRequest.sender := sender;
             QueryJoinPoolRequest.recipient := recipient |}
        = queryJoinPool_call env
            {| QueryJoinPoolRequest.poolId := poolId;
               QueryJoinPoolRequest.request := request;
               QueryJoinPoolRequest.sender := sender';
               QueryJoinPoolRequest.recipient := recipient' |})
  ∧ (∀ poolId request sender recipient sender' recipient',
        queryExitPool_call env
          {| QueryExitPoolRequest.poolId := poolId;
             QueryExitPoolRequest.request := request;
             QueryExitPoolRequest.sender := sender;
             QueryExitPoolRequest.recipient := recipient |}
        = queryExitPool_call env
            {| QueryExitPoolRequest.poolId := poolId;
               QueryExitPoolRequest.request := request;
               QueryExitPoolRequest.sender := sender';
               QueryExitPoolRequest.recipient := recipient' |}).
Proof.
  split; [|split; [|split]].
  - intros request call (amounts & _ & ->)%queryJoinPool_call_Ok_inv. by split.
  - intros request call (amounts & _ & ->)%queryExitPool_call_Ok_inv. by split.
  - reflexivity.
  - reflexivity.
Qed.

(** C7: once the query binding has been obtained and the amounts of
    the request have their unsigned strings, [queryJoinPool] and
    [queryExitPool] are the validation of what the binding answers to
    one call, and that call carries the pool id, the zero address as
    sender, the zero address as recipient, and the request tuple: the
    sender and the recipient of the caller's request are not in it, a
    rejection of this call is the error of the operation, and the
    operation comes out the same whatever sender and recipient the
    request carries. *)
Theorem query_sender_recipient_zero (env : Services) :
  (∀ request query amounts,
      getQueryContract env = Ok query →
      uint256Strings env
        (JoinPoolRequest.maxAmountsIn (QueryJoinPoolRequest.request request))
      = Ok amounts →
      let sent :=
        [ ArgString (QueryJoinPoolRequest.poolId request);
          ArgString ZERO_ADDRESS;
          ArgString ZERO_ADDRESS;
          ArgArray
            [ ArgArray (ArgString <$> JoinPoolRequest.assets
                                        (QueryJoinPoolRequest.request request));
              ArgArray amounts;
              ArgBytes (JoinPoolRequest.userData (QueryJoinPoolRequest.request request));
              ArgBoolean (JoinPoolRequest.fromInternalBalance
                            (QueryJoinPoolRequest.request request)) ] ] in
      queryJoinPool env request
      = (result ← QueryContract.queryJoin query sent;
         queryJoinPool_then env request result)
      ∧ ∀ e, QueryContract.queryJoin query sent = Throw e →
             queryJoinPool env request = Throw e)
  ∧ (∀ request query amounts,
        getQueryContract env = Ok query →
        uint256Strings env
          (ExitPoolRequest.minAmountsOut (QueryExitPoolRequest.request request))
        = Ok amounts →
        let sent :=
          [ ArgString (QueryExitPoolRequest.poolId request);
            ArgString ZERO_ADDRESS;
            ArgString ZERO_ADDRESS;
            ArgArray
              [ ArgArray (ArgString <$> ExitPoolRequest.assets
                                          (QueryExitPoolRequest.request request));
                ArgArray amounts;
                ArgBytes (ExitPoolRequest.userData (QueryExitPoolRequest.request request));
                ArgBoolean (ExitPoolRequest.toInternalBalance
                              (QueryExitPoolRequest.request request)) ] ] in
        queryExitPool env request
        = (result ← QueryContract.queryExit query sent;
           queryExitPool_then env request result)
        ∧ ∀ e, QueryContract.queryExit query sent = Throw e →
               queryExitPool env request = Throw e)
  ∧ (∀ poolId request sender recipient sender' recipient',
        queryJoinPool env
          {| QueryJoinPoolRequest.poolId := poolId;
             QueryJoinPoolRequest.request := request;
             QueryJoinPoolRequest.sender := sender;
             QueryJoinPoolRequest.recipient := recipient |}
        = queryJoinPool env
            {| QueryJoinPoolRequest.poolId := poolId;
               QueryJoinPoolRequest.request := request;
               QueryJoinPoolRequest.sender := sender';
               QueryJoinPoolRequest.recipient := recipient' |})
  ∧ (∀ poolId request sender recipient sender' recipient',
        queryExitPool env
          {| QueryExitPoolRequest.poolId := poolId;
             QueryExitPoolRequest.request := request;
             QueryExitPoolRequest.sender := sender;
             QueryExitPoolRequest.recipient := recipient |}
        = queryExitPool env
            {| QueryExitPoolRequest.poolId := poolId;
               QueryExitPoolRequest.request := request;
               QueryExitPoolRequest.sender := sender';
               QueryExitPoolRequest.recipient := recipient' |}).
Proof.
  split; [|split; [|split; reflexivity]];
    intros request query amounts Hquery Hamounts sent.
  - assert (Hsent :
      queryJoinPool env request
      = (result ← QueryContract.queryJoin query sent;
         queryJoinPool_then env request result)).
    { unfold queryJoinPool, queryJoinPool_call. rewrite Hquery. simpl.
      by rewrite Hamounts. }
    split; [done|]. intros e He. by rewrite Hsent, He.
  - assert (Hsent :
      queryExitPool env request
      = (result ← QueryContract.queryExit query sent;
         queryExitPool_then env request result)).
    { unfold queryExitPool, queryExitPool_call. rewrite Hquery. simpl.
      by rewrite Hamounts. }
    split; [done|]. intros e He. by rewrite Hsent, He.
Qed.

Lemma query_sender_recipient_zero_witness :
  QueryJoinPoolRequest.sender QueryExamples.joinRequest = Some Fixture.tokenA
  ∧ QueryJoinPoolRequest.recipient QueryExamples.joinRequest = Some Fixture.tokenB
  ∧ queryJoinPool SenderExamples.env QueryExamples.joinRequest
    = Ok {| QueryJoinPoolResponse.liquidity := BigNumber.of_Z 1;
            QueryJoinPoolResponse.usedInput := [BigNumber.of_Z 3; BigNumber.of_Z 4];
            QueryJoinPoolResponse.unusedInput :=
              [BigNumber.minus (BigNumber.of_Z 10) (BigNumber.of_Z 3);
               BigNumber.minus (BigNumber.of_Z 20) (BigNumber.of_Z 4)] |}
  ∧ queryExitPool SenderExamples.env QueryExamples.exitRequest
    = Ok {| QueryExitPoolResponse.liquidity := BigNumber.of_Z 1;
            QueryExitPoolResponse.outputs := [BigNumber.of_Z 5; BigNumber.of_Z 6] |}.
Proof.
  destruct (query_sender_recipient_zero SenderExamples.env) as (Hjoin & Hexit & _).
  split; [reflexivity|]. split; [reflexivity|]. split.
  - destruct (Hjoin QueryExamples.joinRequest SenderExamples.query
                [ArgString "10"; ArgString "20"] eq_refl eq_refl) as [-> _].
    reflexivity.
  - destruct (Hexit QueryExamples.exitRequest SenderExamples.query
                [ArgString "1"; ArgString "2"] eq_refl eq_refl) as [-> _].
    reflexivity.
Defined.

(** ** getPoolTokens *)

Lemma sequence_Ok_total {A} (l : list (Result A)) :
  (∀ r, r ∈ l → ∃ a, r = Ok a) → ∃ out, sequence l = Ok out.
Proof.
  induction l as [|r rs IH]; intros Hall; simpl; [eauto|].
  destruct (Hall r) as [a ->]; [left|].
  destruct IH as [out ->]; [intros r' Hr'; apply Hall; by right|].
  simpl. eauto.
Qed.

Lemma getPoolTokens_invalid_iff (result : option PoolTokensResult.t) :
  getPoolTokens_invalid result = true
  ↔ Array_isArray (result_tokens result) = false
    ∨ Array_isArray (result_balances result) = false
    ∨ length (elements (result_tokens result))
      ≠ length (elements (result_balances result)).
Proof.
  unfold getPoolTokens_invalid.
  destruct (result_tokens result) as [|b|ts], (result_balances result) as [|b'|bs];
    simpl; rewrite ?orb_true_r; try (split; [auto | reflexivity]).
  rewrite negb_true_iff, Nat.eqb_neq.
  split; [auto|]. intros [? | [? | ?]]; [discriminate..|done].
Qed.

Section GetPoolTokens.

Variable env : Services.

Lemma getPoolTokens_element_not_invalid (balances : list string) (index : nat)
    (token : string) :
  (address ← orThrow (Error_getAddress token) (getAddress env token);
   Ok {| PoolTokenBalance.token := address;
         PoolTokenBalance.balance :=
           newBigNumber (BigNumber_parse env) (balances !! index) |})
  ≠ Throw (Error_new "Invalid result").
Proof. destruct (getAddress env token); discriminate. Qed.

Lemma getPoolTokens_then_invalid_iff result :
  getPoolTokens_then env result = Throw (Error_new "Invalid result")
  ↔ getPoolTokens_invalid result = true.
Proof.
  unfold getPoolTokens_then.
  destruct (getPoolTokens_invalid result); [done|].
  split; [|discriminate].
  intros Hthrow%sequence_Throw_elem.
  apply elem_of_lookup_imap_1 in Hthrow as (index & token & Heq & _).
  symmetry in Heq. by apply getPoolTokens_element_not_invalid in Heq.
Qed.

(** C6: once the vault has answered, [getPoolTokens] throws "Invalid
    result" exactly when the answer has no tokens array, no balances
    array, or two arrays of different lengths, so that two empty arrays
    are accepted; a returned list has one entry per token, in the order
    of the answer, holding the normalised address of that token and the
    balance at the same index; and a well-shaped answer whose addresses
    all normalise does return. *)
Theorem getPoolTokens_spec poolId result :
  vault_getPoolTokens env poolId = Ok result →
  (getPoolTokens env poolId = Throw (Error_new "Invalid result")
   ↔ Array_isArray (result_tokens result) = false
     ∨ Array_isArray (result_balances result) = false
     ∨ length (elements (result_tokens result))
       ≠ length (elements (result_balances result)))
  ∧ (result_tokens result = JsArray [] →
     result_balances result = JsArray [] →
     getPoolTokens env poolId = Ok [])
  ∧ (∀ out,
        getPoolTokens env poolId = Ok out →
        length out = length (elements (result_tokens result))
        ∧ ∀ i token,
            elements (result_tokens result) !! i = Some token →
            ∃ address,
              getAddress env token = Some address
              ∧ out !! i
                = Some {| PoolTokenBalance.token := address;
                          PoolTokenBalance.balance :=
                            newBigNumber (BigNumber_parse env)
                              (elements (result_balances result) !! i) |})
  ∧ (getPoolTokens_invalid result = false →
     (∀ token, token ∈ elements (result_tokens result) →
               is_Some (getAddress env token)) →
     ∃ out, getPoolTokens env poolId = Ok out).
Proof.
  intros Hcall. unfold getPoolTokens. rewrite Hcall. simpl.
  split; [|split; [|split]].
  - by rewrite getPoolTokens_then_invalid_iff, getPoolTokens_invalid_iff.
  - intros Hts Hbs. unfold getPoolTokens_then, getPoolTokens_invalid.
    by rewrite Hts, Hbs.
  - intros out. unfold getPoolTokens_then.
    destruct (getPoolTokens_invalid result); [discriminate|].
    intros Hout. split.
    + apply sequence_Ok_length in Hout. by rewrite length_imap in Hout.
    + intros i token Hi.
      eapply sequence_Ok_lookup in Hout as (o & Ho & Hlookup);
        [|by rewrite list_lookup_imap, Hi].
      destruct (getAddress env token) as [address|]; [|discriminate].
      injection Ho as <-. eauto.
  - intros Hvalid Haddresses. unfold getPoolTokens_then. rewrite Hvalid.
    apply sequence_Ok_total.
    intros r (index & token & -> & Hi)%elem_of_lookup_imap_1.
    destruct (Haddresses token) as [address ->]; [by eapply list_elem_of_lookup_2|].
    simpl. eauto.
Qed.

End GetPoolTokens.

Lemma getPoolTokens_spec_witness :
  getPoolTokens (Fixture.services PoolTokensExamples.twoTokens) "0x01"
  = Ok [ {| PoolTokenBalance.token := Fixture.tokenB;
            PoolTokenBalance.balance := BigNumber.of_Z 7 |};
         {| PoolTokenBalance.token := Fixture.tokenA;
            PoolTokenBalance.balance := BigNumber.of_Z 9 |} ]
  ∧ getPoolTokens (Fixture.services PoolTokensExamples.noTokens) "0x01" = Ok []
  ∧ getPoolTokens (Fixture.services Fixture.silent) "0x01"
    = Throw (Error_new "Invalid result").
Proof.
  split; [reflexivity|]. split.
  - apply (getPoolTokens_spec (Fixture.services PoolTokensExamples.noTokens) "0x01" _ eq_refl);
      reflexivity.
  - apply (getPoolTokens_spec (Fixture.services Fixture.silent) "0x01" _ eq_refl).
    by left.
Defined.

(** ** checkToken *)

Lemma findIndex_from_range {A} (p : A → bool) (i : Z) (l : list A) :
  (0 ≤ i)%Z →
  (findIndex_from p i l = -1)%Z ∧ (∀ x, x ∈ l → p x = false)
  ∨ (i ≤ findIndex_from p i l)%Z ∧ (∃ x, x ∈ l ∧ p x = true).
Proof.
  revert i. induction l as [|x xs IH]; intros i Hi; simpl.
  - left. split; [done|]. intros x Hx. by apply elem_of_nil in Hx.
  - destruct (p x) eqn:Hpx.
    + right. split; [lia|]. exists x. split; [left | done].
    + destruct (IH (i + 1)%Z) as [[-> Hnone] | [Hge (y & Hy & Hpy)]]; [lia| |].
      * left. split; [done|].
        intros y [-> | Hy]%elem_of_cons; auto.
      * right. split; [lia|]. exists y. split; [by right | done].
Qed.

Lemma findIndex_absent {A} (p : A → bool) (l : list A) :
  (findIndex p l = -1)%Z ↔ ∀ x, x ∈ l → p x = false.
Proof.
  unfold findIndex.
  destruct (findIndex_from_range p 0 l) as [[-> Hnone] | [Hge (y & Hy & Hpy)]]; [lia| |].
  - done.
  - split; [lia|]. intros Hnone. rewrite (Hnone y Hy) in Hpy. discriminate.
Qed.

(** C8: [checkToken] throws the error whose message is the label
    followed by " must be a pool token" exactly when no token of the
    pool has the given address, and returns nothing, without any other
    effect, exactly when one has. *)
Theorem checkToken_spec (pool : PoolConfig.t) (token label : string) :
  (checkToken pool token (Some label)
   = Throw (Error_new (label +:+ " must be a pool token"))
   ↔ token ∉ PoolConfig.address <$> PoolConfig.tokens pool)
  ∧ (checkToken pool token (Some label) = Ok tt
     ↔ token ∈ PoolConfig.address <$> PoolConfig.tokens pool).
Proof.
  assert (Habsent :
    (findIndex (fun t => String.eqb (PoolConfig.address t) token)
       (PoolConfig.tokens pool) = -1)%Z
    ↔ token ∉ PoolConfig.address <$> PoolConfig.tokens pool).
  { rewrite findIndex_absent, list_elem_of_fmap. split.
    - intros Hnone (t & -> & Ht). specialize (Hnone t Ht).
      by rewrite String.eqb_refl in Hnone.
    - intros Hnot t Ht. apply String.eqb_neq. intros Heq.
      apply Hnot. exists t. by split. }
  unfold checkToken. simpl.
  destruct (findIndex _ _ =? -1)%Z eqn:Hindex.
  - apply Z.eqb_eq in Hindex. apply Habsent in Hindex.
    split; split; try done.
  - apply Z.eqb_neq in Hindex.
    assert (Hin : token ∈ PoolConfig.address <$> PoolConfig.tokens pool).
    { destruct (decide (token ∈ PoolConfig.address <$> PoolConfig.tokens pool));
        [done|]. exfalso. by apply Hindex, Habsent. }
    split; split; try done.
Qed.

Example checkToken_stranger :
  checkToken CheckTokenExamples.pool CheckTokenExamples.stranger (Some "asset")
  = Throw (Error_new "asset must be a pool token")
  ∧ checkToken CheckTokenExamples.pool CheckTokenExamples.stranger None
    = Throw (Error_new "token must be a pool token")
  ∧ checkToken CheckTokenExamples.pool Fixture.tokenB (Some "asset") = Ok tt.
Proof. repeat split. Qed.

(** ** The argument tuples of the swap encoders *)

Lemma sequence_fmap_Ok_iff {A B} (f : A → Result B) (l : list A) (out : list B) :
  sequence (f <$> l) = Ok out ↔ Forall2 (fun x o => f x = Ok o) l out.
Proof. by rewrite sequence_Ok_Forall2, Forall2_fmap_l. Qed.

Lemma Forall2_iff {A B} (P Q : A → B → Prop) (l : list A) (k : list B) :
  (∀ x y, P x y ↔ Q x y) → Forall2 P l k ↔ Forall2 Q l k.
Proof.
  intros HPQ.
  split; intros H; (eapply Forall2_impl; [exact H|]); intros x y; apply HPQ.
Qed.

Section Conversions.

Variable env : Services.

Lemma uint256String_Ok_iff amount o :
  uint256String env amount = Ok o
  ↔ ∃ s, bigNumberToUint256String env amount = Some s ∧ o = ArgString s.
Proof.
  unfold uint256String.
  destruct (bigNumberToUint256String env amount) as [s|]; simpl.
  - split; [intros [= <-]; eauto | by intros (s' & [= <-] & ->)].
  - split; [discriminate | by intros (s' & [=] & _)].
Qed.

Lemma int256String_Ok_iff amount o :
  int256String env amount = Ok o
  ↔ ∃ s, bigNumberToInt256String env amount = Some s ∧ o = ArgString s.
Proof.
  unfold int256String.
  destruct (bigNumberToInt256String env amount) as [s|]; simpl.
  - split; [intros [= <-]; eauto | by intros (s' & [= <-] & ->)].
  - split; [discriminate | by intros (s' & [=] & _)].
Qed.

Lemma uint256Strings_Ok_iff amounts out :
  uint256Strings env amounts = Ok out
  ↔ Forall2
      (fun amount o =>
         ∃ s, bigNumberToUint256String env amount = Some s ∧ o = ArgString s)
      amounts out.
Proof.
  unfold uint256Strings. rewrite sequence_fmap_Ok_iff.
  apply Forall2_iff. intros amount o. apply uint256String_Ok_iff.
Qed.

Lemma int256Strings_Ok_iff amounts out :
  int256Strings env amounts = Ok out
  ↔ Forall2
      (fun amount o =>
         ∃ s, bigNumberToInt256String env amount = Some s ∧ o = ArgString s)
      amounts out.
Proof.
  unfold int256Strings. rewrite sequence_fmap_Ok_iff.
  apply Forall2_iff. intros amount o. apply int256String_Ok_iff.
Qed.

Lemma swapTuple_Ok_iff swap o :
  swapTuple env swap = Ok o
  ↔ ∃ s,
      bigNumberToUint256String env (BatchSwapStep.amount swap) = Some s
      ∧ o = ArgArray
              [ ArgString (BatchSwapStep.poolId swap);
                ArgNumber (BatchSwapStep.assetInIndex swap);
                ArgNumber (BatchSwapStep.assetOutIndex swap);
                ArgString s;
                ArgBytes (BatchSwapStep.userData swap) ].
Proof.
  unfold swapTuple. split.
  - intros (a & (s & Hs & ->)%uint256String_Ok_iff & [= <-])%bind_Ok_inv. eauto.
  - intros (s & Hs & ->).
    assert (Ha : uint256String env (BatchSwapStep.amount swap) = Ok (ArgString s))
      by (apply uint256String_Ok_iff; eauto).
    by rewrite Ha.
Qed.

(** The argument tuple of [encodeSwap] exists exactly when the
    unsigned conversion accepts both the input amount and the limit, and
    then holds the two unsigned strings in the amount and the limit
    position; the tuple of [encodeBatchSwap] exists exactly when the
    unsigned conversion accepts the amount of every swap and the signed
    conversion accepts every limit, and then holds the unsigned string
    of each amount and the signed string of each limit, in order. *)
Lemma swap_tuple_conversions :
  (∀ args tuple,
      encodeSwap_tuple env args = Ok tuple
      ↔ ∃ amount limit,
          bigNumberToUint256String env (SingleSwap.amount (SwapArgs.singleSwap args))
          = Some amount
          ∧ bigNumberToUint256String env (SwapArgs.limit args) = Some limit
          ∧ tuple
            = [ ArgArray
                  [ ArgString (SingleSwap.poolId (SwapArgs.singleSwap args));
                    ArgNumber (SingleSwap.kind (SwapArgs.singleSwap args));
                    ArgString (SingleSwap.assetIn (SwapArgs.singleSwap args));
                    ArgString (SingleSwap.assetOut (SwapArgs.singleSwap args));
                    ArgString amount;
                    ArgBytes (SingleSwap.userData (SwapArgs.singleSwap args)) ];
                fundsTuple (SwapArgs.funds args);
                ArgString limit;
                ArgNumber (SwapArgs.deadline args) ])
  ∧ (∀ args tuple,
        encodeBatchSwap_tuple env args = Ok tuple
        ↔ ∃ swaps limits,
            Forall2
              (fun swap o =>
                 ∃ s,
                   bigNumberToUint256String env (BatchSwapStep.amount swap) = Some s
                   ∧ o = ArgArray
                           [ ArgString (BatchSwapStep.poolId swap);
                             ArgNumber (BatchSwapStep.assetInIndex swap);
                             ArgNumber (BatchSwapStep.assetOutIndex swap);
                             ArgString s;
                             ArgBytes (BatchSwapStep.userData swap) ])
              (BatchSwapArgs.swaps args) swaps
            ∧ Forall2
                (fun limit o =>
                   ∃ s, bigNumberToInt256String env limit = Some s ∧ o = ArgString s)
                (BatchSwapArgs.limits args) limits
            ∧ tuple
              = [ ArgNumber (BatchSwapArgs.kind args);
                  ArgArray swaps;
                  ArgArray (ArgString <$> BatchSwapArgs.assets args);
                  fundsTuple (BatchSwapArgs.funds args);
                  ArgArray limits;
                  ArgNumber (BatchSwapArgs.deadline args) ]).
Proof.
  split; intros args tuple.
  - unfold encodeSwap_tuple. split.
    + intros (a & (amount & Hamount & ->)%uint256String_Ok_iff & H)%bind_Ok_inv.
      apply bind_Ok_inv in H as (l & (limit & Hlimit & ->)%uint256String_Ok_iff & [= <-]).
      eauto.
    + intros (amount & limit & Hamount & Hlimit & ->).
      unfold uint256String. by rewrite Hamount, Hlimit.
  - unfold encodeBatchSwap_tuple. split.
    + intros (swaps & Hswaps & H)%bind_Ok_inv.
      apply bind_Ok_inv in H as (limits & Hlimits & [= <-]).
      exists swaps, limits. split; [|split; [|done]].
      * apply sequence_fmap_Ok_iff in Hswaps.
        eapply Forall2_impl; [exact Hswaps|].
        intros swap o. apply swapTuple_Ok_iff.
      * by apply int256Strings_Ok_iff.
    + intros (swaps & limits & Hswaps & Hlimits & ->).
      assert (Hs : sequence (swapTuple env <$> BatchSwapArgs.swaps args) = Ok swaps).
      { apply sequence_fmap_Ok_iff. eapply Forall2_impl; [exact Hswaps|].
        intros swap o. apply swapTuple_Ok_iff. }
      apply int256Strings_Ok_iff in Hlimits.
      by rewrite Hs, Hlimits.
Qed.

(** C4, amended: [encodeSwap] returns call data exactly when the vault
    ABI has the function, the unsigned conversion accepts the input
    amount and the limit, and the coder returns that data for the swap
    tuple holding the unsigned string of the amount and the unsigned
    string of the limit; [encodeBatchSwap] returns call data exactly
    when the ABI has the function, the unsigned conversion accepts the
    amount of every swap, the signed conversion accepts every limit, and
    the coder returns that data for the tuple holding the unsigned
    string of each amount and the signed string of each limit, in
    order. *)
Theorem swap_encoders_conversions :
  (∀ args data,
      encodeSwap env args = Ok data
      ↔ ∃ methodAbi amount limit,
          getVaultFunctionAbi env "swap" = Ok methodAbi
          ∧ bigNumberToUint256String env (SingleSwap.amount (SwapArgs.singleSwap args))
            = Some amount
          ∧ bigNumberToUint256String env (SwapArgs.limit args) = Some limit
          ∧ encodeFunctionCall env methodAbi
              [ ArgArray
                  [ ArgString (SingleSwap.poolId (SwapArgs.singleSwap args));
                    ArgNumber (SingleSwap.kind (SwapArgs.singleSwap args));
                    ArgString (SingleSwap.assetIn (SwapArgs.singleSwap args));
                    ArgString (SingleSwap.assetOut (SwapArgs.singleSwap args));
                    ArgString amount;
                    ArgBytes (SingleSwap.userData (SwapArgs.singleSwap args)) ];
                ArgArray
                  [ ArgString (fm_sender (SwapArgs.funds args));
                    ArgBoolean (fm_fromInternalBalance (SwapArgs.funds args));
                    ArgString (fm_recipient (SwapArgs.funds args));
                    ArgBoolean (fm_toInternalBalance (SwapArgs.funds args)) ];
                ArgString limit;
                ArgNumber (SwapArgs.deadline args) ]
            = Ok data)
  ∧ (∀ args data,
        encodeBatchSwap env args = Ok data
        ↔ ∃ methodAbi swaps limits,
            getVaultFunctionAbi env "batchSwap" = Ok methodAbi
            ∧ Forall2
                (fun swap o =>
                   ∃ s,
                     bigNumberToUint256String env (BatchSwapStep.amount swap) = Some s
                     ∧ o = ArgArray
                             [ ArgString (BatchSwapStep.poolId swap);
                               ArgNumber (BatchSwapStep.assetInIndex swap);
                               ArgNumber (BatchSwapStep.assetOutIndex swap);
                               ArgString s;
                               ArgBytes (BatchSwapStep.userData swap) ])
                (BatchSwapArgs.swaps args) swaps
            ∧ Forall2
                (fun limit o =>
                   ∃ s, bigNumberToInt256String env limit = Some s ∧ o = ArgString s)
                (BatchSwapArgs.limits args) limits
            ∧ encodeFunctionCall env methodAbi
                [ ArgNumber (BatchSwapArgs.kind args);
                  ArgArray swaps;
                  ArgArray (ArgString <$> BatchSwapArgs.assets args);
                  ArgArray
                    [ ArgString (fm_sender (BatchSwapArgs.funds args));
                      ArgBoolean (fm_fromInternalBalance (BatchSwapArgs.funds args));
                      ArgString (fm_recipient (BatchSwapArgs.funds args));
                      ArgBoolean (fm_toInternalBalance (BatchSwapArgs.funds args)) ];
                  ArgArray limits;
                  ArgNumber (BatchSwapArgs.deadline args) ]
              = Ok data).
Proof.
  destruct swap_tuple_conversions as [Hswap Hbatch].
  split; intros args data.
  - unfold encodeSwap. split.
    + intros (methodAbi & Habi & H)%bind_Ok_inv.
      apply bind_Ok_inv in H as (tuple & Htuple & Hdata).
      apply Hswap in Htuple as (amount & limit & Hamount & Hlimit & ->).
      exists methodAbi, amount, limit. done.
    + intros (methodAbi & amount & limit & Habi & Hamount & Hlimit & Hdata).
      rewrite Habi. simpl.
      assert (Htuple : encodeSwap_tuple env args = Ok _)
        by (apply Hswap; eauto).
      rewrite Htuple. exact Hdata.
  - unfold encodeBatchSwap. split.
    + intros (methodAbi & Habi & H)%bind_Ok_inv.
      apply bind_Ok_inv in H as (tuple & Htuple & Hdata).
      apply Hbatch in Htuple as (swaps & limits & Hswaps & Hlimits & ->).
      exists methodAbi, swaps, limits. done.
    + intros (methodAbi & swaps & limits & Habi & Hswaps & Hlimits & Hdata).
      rewrite Habi. simpl.
      assert (Htuple : encodeBatchSwap_tuple env args = Ok _)
        by (apply Hbatch; eauto).
      rewrite Htuple. exact Hdata.
Qed.

End Conversions.

(** C4 as stated fails for the single swap.  With a coder that gives
    back the limit it is handed, [encodeSwap] returns the unsigned
    string of a limit of 2^255, which is beyond the signed 256-bit range
    and has no signed string; and a limit of -1, which has a signed
    string, is refused by the unsigned conversion [encodeSwap] applies
    to it. *)
Lemma encodeSwap_limit_counterexample :
  (bigNumberToInt256String LimitExamples.env (BigNumber.of_Z (2 ^ 255)) = None
   ∧ bigNumberToUint256String LimitExamples.env (BigNumber.of_Z (2 ^ 255))
     = Some "57896044618658097711785492504343953926634992332820282019728792003956564819968"
   ∧ encodeSwap LimitExamples.env (SwapExamples.swap (BigNumber.of_Z (2 ^ 255)))
     = Ok "57896044618658097711785492504343953926634992332820282019728792003956564819968")
  ∧ (bigNumberToInt256String LimitExamples.env (BigNumber.of_Z (-1)) = Some "-1"
     ∧ encodeSwap LimitExamples.env (SwapExamples.swap (BigNumber.of_Z (-1)))
       = Throw (Error_bigNumberToString false)).
Proof.
  repeat split; vm_compute; reflexivity.
Qed.

(** ** The double behind an exit kind *)

Lemma toNumber_small (z : Z) : (z < 2 ^ 53)%Z → toNumber z = z.
Proof.
  intros Hz. unfold toNumber.
  by destruct (Z.ltb_spec z (2 ^ 53)); [|lia].
Qed.

Lemma toNumber_large (z : Z) : (2 ^ 53 ≤ z)%Z → (2 ^ 53 ≤ toNumber z)%Z.
Proof.
  intros Hz. unfold toNumber.
  destruct (Z.ltb_spec z (2 ^ 53)); [lia|].
  assert (Hlog : (53 ≤ Z.log2 z)%Z).
  { rewrite <- (Z.log2_pow2 53) by lia. by apply Z.log2_le_mono. }
  set (shift := (Z.log2 z - 52)%Z).
  assert (Hshift : (1 ≤ shift)%Z) by (subst shift; lia).
  assert (Hq : (2 ^ 52 ≤ Z.shiftr z shift)%Z).
  { rewrite Z.shiftr_div_pow2 by lia.
    apply Z.div_le_lower_bound; [apply Z.pow_pos_nonneg; lia|].
    rewrite Z.mul_comm, <- Z.pow_add_r by lia.
    replace (52 + shift)%Z with (Z.log2 z) by (subst shift; lia).
    apply Z.log2_spec. lia. }
  match goal with |- context [Z.shiftl ?x shift] => set (q' := x) end.
  assert (Hq' : (2 ^ 52 ≤ q')%Z) by (subst q'; destruct (_ || _); lia).
  rewrite Z.shiftl_mul_pow2 by lia.
  assert (Hpow : (2 ^ 1 ≤ 2 ^ shift)%Z) by (apply Z.pow_le_mono_r; lia).
  change (2 ^ 53)%Z with (2 ^ 52 * 2 ^ 1)%Z.
  apply Z.mul_le_mono_nonneg; lia.
Qed.

(** The [switch] on 0, 1 and 2 sees the decoded integer itself. *)
Lemma toNumber_case (z k : Z) :
  (0 ≤ k < 2 ^ 53)%Z → (toNumber z =? k)%Z = (z =? k)%Z.
Proof.
  intros Hk.
  destruct (Z.lt_ge_cases z (2 ^ 53)) as [Hz | Hz].
  - by rewrite toNumber_small.
  - pose proof (toNumber_large z Hz).
    destruct (Z.eqb_spec (toNumber z) k), (Z.eqb_spec z k); lia.
Qed.

Example toNumber_ties_to_even :
  toNumber 99 = 99%Z
  ∧ toNumber (2 ^ 53 + 1) = (2 ^ 53)%Z
  ∧ toNumber (2 ^ 53 + 3) = (2 ^ 53 + 4)%Z
  ∧ toNumber (2 ^ 256 - 1) = (2 ^ 256)%Z.
Proof. repeat split; vm_compute; reflexivity. Qed.

(** ** The zap builders *)

Section ZapBuilders.

Variable env : Services.
Variable config : VaultConfig.

Lemma getJoinPoolZap_Ok_inv request step :
  getJoinPoolZap env config request = Ok step →
  encodeJoinPool env (JoinPoolZapRequest.join request) = Ok (ZapStep.data step)
  ∧ ZapStep.target step = vaultAddress config
  ∧ ZapStep.value step = "0"
  ∧ ZapStep.tokens step
    = if JoinPoolZapRequest.insertBalance request
      then imap
             (fun i address =>
                {| StepToken.token := address;
                   StepToken.index :=
                     getInsertIndex env
                       (9 + Z.of_nat (length (JoinPoolRequest.assets
                                                (JoinPoolArgs.request
                                                   (JoinPoolZapRequest.join request))))
                        + 1 + Z.of_nat i)%Z |})
             (JoinPoolRequest.assets
                (JoinPoolArgs.request (JoinPoolZapRequest.join request)))
      else [].
Proof.
  unfold getJoinPoolZap.
  intros (data & Hdata & [= <-])%bind_Ok_inv. by simpl.
Qed.

(** C2: with balance insertion enabled and [getInsertIndex] giving the
    byte index of a word as 4 bytes of selector plus 32 bytes per word,
    a returned join step carries the call data of [encodeJoinPool] and
    exactly one insertion per asset, in the order of the request; the
    insertion of asset [i] names that asset and the byte index
    [4 + 32 * (9 + N + 1 + i)], which is word [9 + N + 1 + i], where
    [N] is the number of assets. *)
Theorem getJoinPoolZap_insertions request step i address :
  (∀ position, getInsertIndex env position = Zap.getInsertIndex position) →
  JoinPoolZapRequest.insertBalance request = true →
  getJoinPoolZap env config request = Ok step →
  JoinPoolRequest.assets (JoinPoolArgs.request (JoinPoolZapRequest.join request)) !! i
  = Some address →
  let N :=
    Z.of_nat (length (JoinPoolRequest.assets
                        (JoinPoolArgs.request (JoinPoolZapRequest.join request)))) in
  encodeJoinPool env (JoinPoolZapRequest.join request) = Ok (ZapStep.data step)
  ∧ Z.of_nat (length (ZapStep.tokens step)) = N
  ∧ ZapStep.tokens step !! i
    = Some {| StepToken.token := address;
              StepToken.index := (4 + 32 * (9 + N + 1 + Z.of_nat i))%Z |}.
Proof.
  intros Hhelper Hinsert (Hdata & _ & _ & Htokens)%getJoinPoolZap_Ok_inv Hi N.
  rewrite Hinsert in Htokens. rewrite Htokens.
  split; [done|]. split.
  - by rewrite length_imap.
  - rewrite list_lookup_imap, Hi. simpl. by rewrite Hhelper.
Qed.

(** A join step is returned whenever the call encodes. *)
Lemma getJoinPoolZap_returns request data :
  encodeJoinPool env (JoinPoolZapRequest.join request) = Ok data →
  ∃ step, getJoinPoolZap env config request = Ok step ∧ ZapStep.data step = data.
Proof. intros H. unfold getJoinPoolZap. rewrite H. simpl. eauto. Qed.

(** C3: with balance insertion enabled and a [userData] of at least
    one word, the insertions of the exit step are decided by the
    unsigned integer in the leading word of [userData]: for 0 and for 1
    the single insertion names the pool token at word
    [userDataWordStart + 1], for 2 at word [userDataWordStart + 2], and
    for every other value the unsupported exit kind error is thrown for
    that value, as the double [toNumber] makes of it; [getExitPoolZap]
    returns the step with these insertions, respectively throws that
    error, whenever the call itself encodes. *)
Theorem getExitPoolZap_exit_kinds request (exitKind : Z) :
  ExitPoolZapRequest.insertBalance request = true →
  32 ≤ length (ExitPoolRequest.userData
                 (ExitPoolArgs.request (ExitPoolZapRequest.exit request))) →
  uint_of_bytes
    (take 32 (ExitPoolRequest.userData
                (ExitPoolArgs.request (ExitPoolZapRequest.exit request))))
  = exitKind →
  let exitRequest := ExitPoolArgs.request (ExitPoolZapRequest.exit request) in
  let userDataWordStart :=
    (9 + Z.of_nat (length (ExitPoolRequest.assets exitRequest)) + 1
     + Z.of_nat (length (ExitPoolRequest.minAmountsOut exitRequest)) + 1)%Z in
  let insertionAt (word : Z) : list StepToken.t :=
    [ {| StepToken.token := ExitPoolZapRequest.poolAddress request;
         StepToken.index := getInsertIndex env word |} ] in
  let stepWith (data : string) (tokens : list StepToken.t) : ZapStep.t :=
    {| ZapStep.target := vaultAddress config;
       ZapStep.value := "0";
       ZapStep.data := data;
       ZapStep.tokens := tokens |} in
  (exitKind = 0%Z ∨ exitKind = 1%Z →
   getExitPoolZapTokens env request = Ok (insertionAt (userDataWordStart + 1)%Z)
   ∧ ∀ data,
       encodeExitPool env (ExitPoolZapRequest.exit request) = Ok data →
       getExitPoolZap env config request
       = Ok (stepWith data (insertionAt (userDataWordStart + 1)%Z)))
  ∧ (exitKind = 2%Z →
     getExitPoolZapTokens env request = Ok (insertionAt (userDataWordStart + 2)%Z)
     ∧ ∀ data,
         encodeExitPool env (ExitPoolZapRequest.exit request) = Ok data →
         getExitPoolZap env config request
         = Ok (stepWith data (insertionAt (userDataWordStart + 2)%Z)))
  ∧ (exitKind ≠ 0%Z → exitKind ≠ 1%Z → exitKind ≠ 2%Z →
     getExitPoolZapTokens env request
     = Throw (Error_UnsupportedExitKind (toNumber exitKind))
     ∧ ∀ data,
         encodeExitPool env (ExitPoolZapRequest.exit request) = Ok data →
         getExitPoolZap env config request
         = Throw (Error_UnsupportedExitKind (toNumber exitKind))).
Proof.
  intros Hinsert Hlen Hkind exitRequest userDataWordStart insertionAt stepWith.
  assert (Hdecode :
    decodeParameter_uint256 (ExitPoolRequest.userData exitRequest) = Ok exitKind).
  { unfold decodeParameter_uint256.
    destruct (length _ <? 32) eqn:Hshort.
    - apply Nat.ltb_lt in Hshort. subst exitRequest. lia.
    - by rewrite <- Hkind. }
  assert (Hzap : ∀ tokens data,
    getExitPoolZapTokens env request = tokens →
    encodeExitPool env (ExitPoolZapRequest.exit request) = Ok data →
    getExitPoolZap env config request
    = tokens ≫= fun tokens => Ok (stepWith data tokens)).
  { intros tokens data <- Hdata. unfold getExitPoolZap. by rewrite Hdata. }
  assert (Htokens :
    getExitPoolZapTokens env request
    = if (exitKind =? 0)%Z then Ok (insertionAt (userDataWordStart + 1)%Z)
      else if (exitKind =? 1)%Z then Ok (insertionAt (userDataWordStart + 1)%Z)
      else if (exitKind =? 2)%Z then Ok (insertionAt (userDataWordStart + 2)%Z)
      else Throw (Error_UnsupportedExitKind (toNumber exitKind))).
  { unfold getExitPoolZapTokens. rewrite Hinsert. simpl.
    fold exitRequest. rewrite Hdecode. simpl.
    unfold WeightedPoolExitKind.EXACT_BPT_IN_FOR_TOKENS_OUT,
      WeightedPoolExitKind.EXACT_BPT_IN_FOR_ONE_TOKEN_OUT,
      WeightedPoolExitKind.BPT_IN_FOR_EXACT_TOKENS_OUT.
    by rewrite !toNumber_case by lia. }
  split; [|split].
  - intros Hk.
    assert (H : getExitPoolZapTokens env request
                = Ok (insertionAt (userDataWordStart + 1)%Z))
      by (rewrite Htokens; by destruct Hk as [-> | ->]).
    split; [done|]. intros data Hdata. by rewrite (Hzap _ data H Hdata).
  - intros ->.
    assert (H : getExitPoolZapTokens env request
                = Ok (insertionAt (userDataWordStart + 2)%Z))
      by (by rewrite Htokens).
    split; [done|]. intros data Hdata. by rewrite (Hzap _ data H Hdata).
  - intros H0%Z.eqb_neq H1%Z.eqb_neq H2%Z.eqb_neq.
    assert (H : getExitPoolZapTokens env request
                = Throw (Error_UnsupportedExitKind (toNumber exitKind)))
      by (by rewrite Htokens, H0, H1, H2).
    split; [done|]. intros data Hdata. by rewrite (Hzap _ data H Hdata).
Qed.

(** C9: with balance insertion disabled each of the three builders
    returns, whenever its call encodes, the step with that call data
    and no insertion; [getExitPoolZap] does so whatever [userData]
    holds, the exit kind is not looked at. *)
Theorem zap_without_insertion :
  (∀ request,
      JoinPoolZapRequest.insertBalance request = false →
      getJoinPoolZap env config request
      = data ← encodeJoinPool env (JoinPoolZapRequest.join request);
        Ok {| ZapStep.target := vaultAddress config;
              ZapStep.value := "0";
              ZapStep.data := data;
              ZapStep.tokens := [] |})
  ∧ (∀ request,
        ExitPoolZapRequest.insertBalance request = false →
        getExitPoolZapTokens env request = Ok []
        ∧ getExitPoolZap env config request
          = data ← encodeExitPool env (ExitPoolZapRequest.exit request);
            Ok {| ZapStep.target := vaultAddress config;
                  ZapStep.value := "0";
                  ZapStep.data := data;
                  ZapStep.tokens := [] |})
  ∧ (∀ request,
        SwapZapRequest.insertBalance request = false →
        getSwapZap env config request
        = data ← encodeSwap env (SwapZapRequest.swap request);
          Ok {| ZapStep.target := vaultAddress config;
                ZapStep.value := "0";
                ZapStep.data := data;
                ZapStep.tokens := [] |}).
Proof.
  split; [|split]; intros request Hinsert.
  - unfold getJoinPoolZap. by rewrite Hinsert.
  - unfold getExitPoolZap, getExitPoolZapTokens. rewrite Hinsert. simpl.
    split; [done|].
    by destruct (encodeExitPool env (ExitPoolZapRequest.exit request)).
  - unfold getSwapZap. by rewrite Hinsert.
Qed.

End ZapBuilders.

Lemma getJoinPoolZap_insertions_witness :
  let step :=
    {| ZapStep.target := vaultAddress Fixture.config;
       ZapStep.value := "0";
       ZapStep.data := "call:joinPool";
       ZapStep.tokens :=
         [ {| StepToken.token := Fixture.tokenA; StepToken.index := 388 |};
           {| StepToken.token := Fixture.tokenB; StepToken.index := 420 |} ] |} in
  getJoinPoolZap ZapExamples.env Fixture.config (ZapExamples.join true) = Ok step
  ∧ ZapStep.tokens step !! 1
    = Some {| StepToken.token := Fixture.tokenB;
              StepToken.index := (4 + 32 * (9 + 2 + 1 + 1))%Z |}.
Proof.
  intros step.
  assert (Hrun : getJoinPoolZap ZapExamples.env Fixture.config (ZapExamples.join true)
                 = Ok step) by reflexivity.
  split; [exact Hrun|].
  apply (getJoinPoolZap_insertions ZapExamples.env Fixture.config
           (ZapExamples.join true) step 1 Fixture.tokenB);
    [reflexivity | reflexivity | exact Hrun | reflexivity].
Defined.

Lemma getExitPoolZap_exit_kinds_witness :
  (∃ step,
      getExitPoolZap ZapExamples.env Fixture.config (ZapExamples.exit x00 true) = Ok step
      ∧ ZapStep.tokens step
        = [ {| StepToken.token := ZapExamples.poolToken;
               StepToken.index := Zap.getInsertIndex (9 + 2 + 1 + 2 + 1 + 1) |} ])
  ∧ (∃ step,
        getExitPoolZap ZapExamples.env Fixture.config (ZapExamples.exit x02 true) = Ok step
        ∧ ZapStep.tokens step
          = [ {| StepToken.token := ZapExamples.poolToken;
                 StepToken.index := Zap.getInsertIndex (9 + 2 + 1 + 2 + 1 + 2) |} ])
  ∧ getExitPoolZap ZapExamples.env Fixture.config (ZapExamples.exit x63 true)
    = Throw (Error_UnsupportedExitKind 99).
Proof.
  destruct (getExitPoolZap_exit_kinds ZapExamples.env Fixture.config
              (ZapExamples.exit x00 true) 0)
    as (Hall & _ & _); [reflexivity | simpl; lia | reflexivity |].
  destruct (getExitPoolZap_exit_kinds ZapExamples.env Fixture.config
              (ZapExamples.exit x02 true) 2)
    as (_ & Hexact & _); [reflexivity | simpl; lia | reflexivity |].
  destruct (getExitPoolZap_exit_kinds ZapExamples.env Fixture.config
              (ZapExamples.exit x63 true) 99)
    as (_ & _ & Hother); [reflexivity | simpl; lia | reflexivity |].
  destruct (Hall (or_introl eq_refl)) as [_ Hstep0].
  destruct (Hexact eq_refl) as [_ Hstep2].
  destruct Hother as [_ Hthrow]; [lia..|].
  split; [|split].
  - eexists. split; [apply (Hstep0 "call:exitPool" eq_refl) | reflexivity].
  - eexists. split; [apply (Hstep2 "call:exitPool" eq_refl) | reflexivity].
  - apply (Hthrow "call:exitPool" eq_refl).
Defined.

Lemma zap_without_insertion_witness :
  getExitPoolZap ZapExamples.env Fixture.config (ZapExamples.exit x63 false)
  = Ok {| ZapStep.target := vaultAddress Fixture.config;
          ZapStep.value := "0";
          ZapStep.data := "call:exitPool";
          ZapStep.tokens := [] |}
  ∧ getExitPoolZap ZapExamples.env Fixture.config (ZapExamples.exit x63 true)
    = Throw (Error_UnsupportedExitKind 99)
  ∧ ZapStep.tokens
      <$> getJoinPoolZap ZapExamples.env Fixture.config (ZapExamples.join false)
    = Ok []
  ∧ ZapStep.tokens
      <$> getSwapZap ZapExamples.env Fixture.config (ZapExamples.swap false)
    = Ok [].
Proof.
  destruct (zap_without_insertion ZapExamples.env Fixture.config)
    as (Hjoin & Hexit & Hswap).
  split; [|split; [|split]].
  - destruct (Hexit (ZapExamples.exit x63 false) eq_refl) as [_ ->]. reflexivity.
  - reflexivity.
  - rewrite (Hjoin (ZapExamples.join false) eq_refl). reflexivity.
  - rewrite (Hswap (ZapExamples.swap false) eq_refl). reflexivity.
Defined.

(** ** The lazy factories *)

Module FactoryFacts.

Import Factory.

Lemma fresh_consistent : consistent fresh.
Proof. split; intros; reflexivity. Qed.

Lemma suspended_snoc (f g : factory) (l : list factory) :
  length (filter (fun h => h = f) (l ++ [g])%list)
  = length (filter (fun h => h = f) l) + (if decide (g = f) then 1 else 0).
Proof.
  rewrite filter_app, length_app. f_equal.
  rewrite filter_cons, filter_nil. by case_decide.
Qed.

Ltac decide_cells :=
  unfold bump; cbn; repeat case_decide; try congruence; try lia.

Lemma requestWeb3_consistent c :
  consistent c → consistent (requestWeb3 c).1.
Proof.
  intros [Hbodies Hweb3 Hcontract Hnot].
  unfold requestWeb3. destruct (cache c Web3) eqn:EW; [by split|].
  pose proof (Hbodies Web3) as HbW. rewrite EW in HbW.
  unfold enter. rewrite EW.
  split; unfold suspended in *; cbn.
  - intros g. destruct g; decide_cells; apply Hbodies.
  - decide_cells.
  - intros g Hg. destruct g; decide_cells; by apply Hcontract.
  - done.
Qed.

Lemma requestContract_consistent f c :
  f ≠ Web3 → consistent c → consistent (requestContract f c).1.
Proof.
  intros Hf Hc.
  unfold requestContract. destruct (cache c f) eqn:Ef; [done|].
  destruct Hc as [Hbodies Hweb3 Hcontract Hnot].
  pose proof (Hbodies f) as Hbf. rewrite Ef in Hbf.
  pose proof (Hcontract f Hf) as Hcf.
  pose proof (Hbodies Web3) as HbW.
  pose proof (Hbodies VaultContract) as HbV.
  pose proof (Hbodies QueryContract) as HbQ.
  pose proof (Hcontract VaultContract) as HcV.
  pose proof (Hcontract QueryContract) as HcQ.
  unfold enter at 1. rewrite Ef.
  unfold requestWeb3, enter, suspended in *; cbn.
  destruct f; [done|..]; decide_cells.
  all: destruct (cache c Web3) eqn:EW; cbn.
  all: split; unfold suspended; cbn; rewrite ?suspended_snoc.
  all: try (intros g; destruct g); try intros Hg; rewrite ?suspended_snoc.
  all: decide_cells.
  all: rewrite ?EW, ?Ef; try done; try lia.
  all: specialize (HcV ltac:(done)); specialize (HcQ ltac:(done)); lia.
Qed.

Lemma request_consistent f c :
  consistent c → consistent (request f c).1.
Proof.
  destruct f; simpl.
  - apply requestWeb3_consistent.
  - by apply requestContract_consistent.
  - by apply requestContract_consistent.
Qed.

Lemma resume_consistent c :
  consistent c → consistent (resume c).
Proof.
  intros [Hbodies Hweb3 Hcontract Hnot].
  unfold resume. destruct (awaiting c) as [|f rest] eqn:Hawaiting; [by split|].
  pose proof (Hcontract VaultContract) as HcV.
  pose proof (Hcontract QueryContract) as HcQ.
  unfold suspended in *. rewrite Hawaiting in *.
  rewrite filter_cons in Hnot, HcV, HcQ.
  destruct f; [by rewrite decide_True in Hnot|..].
  all: split; unfold suspended; cbn.
  all: try (intros g; destruct g); try intros Hg.
  all: repeat case_decide; try done; try apply Hbodies.
  all: specialize (HcV ltac:(done)); specialize (HcQ ltac:(done)).
  all: decide_cells; simpl in *; lia.
Qed.

(** A filled cell is never written again. *)
Lemma enter_cache_stable f g c p :
  cache c g = Some p → cache (enter f c).1 g = Some p.
Proof.
  intros Hg. unfold enter.
  destruct (cache c f) eqn:Ef; cbn; [done|].
  case_decide; [congruence | done].
Qed.

Lemma requestWeb3_cache c : cache (requestWeb3 c).1 = cache (enter Web3 c).1.
Proof.
  unfold requestWeb3, enter. by destruct (cache c Web3).
Qed.

Lemma requestWeb3_cache_stable g c p :
  cache c g = Some p → cache (requestWeb3 c).1 g = Some p.
Proof. rewrite requestWeb3_cache. apply enter_cache_stable. Qed.

Lemma requestContract_cache_stable f g c p :
  cache c g = Some p → cache (requestContract f c).1 g = Some p.
Proof.
  intros Hg. unfold requestContract.
  destruct (cache c f) eqn:Ef; [done|].
  pose proof (enter_cache_stable f g c p Hg) as H1.
  destruct (enter f c) as [c1 p1].
  pose proof (requestWeb3_cache_stable g c1 p H1) as H2.
  by destruct (requestWeb3 c1) as [c2 p2].
Qed.

Lemma request_cache_stable f g c p :
  cache c g = Some p → cache (request f c).1 g = Some p.
Proof.
  destruct f; simpl;
    [apply requestWeb3_cache_stable | apply requestContract_cache_stable..].
Qed.

(** A request is handed the promise that its cell holds from then on. *)
Lemma enter_handed f c : cache (enter f c).1 f = Some (enter f c).2.
Proof.
  unfold enter. destruct (cache c f) eqn:Ef; cbn; [done|].
  by rewrite decide_True.
Qed.

Lemma requestWeb3_handed c : cache (requestWeb3 c).1 Web3 = Some (requestWeb3 c).2.
Proof.
  rewrite requestWeb3_cache.
  replace (requestWeb3 c).2 with (enter Web3 c).2; [apply enter_handed|].
  unfold requestWeb3, enter. by destruct (cache c Web3).
Qed.

Lemma requestContract_handed f c :
  cache (requestContract f c).1 f = Some (requestContract f c).2.
Proof.
  unfold requestContract.
  destruct (cache c f) eqn:Ef; [done|].
  pose proof (enter_handed f c) as H1.
  destruct (enter f c) as [c1 p1].
  pose proof (requestWeb3_cache_stable f c1 p1 H1) as H2.
  by destruct (requestWeb3 c1) as [c2 p2].
Qed.

Lemma request_handed f c :
  cache (request f c).1 f = Some (request f c).2.
Proof.
  destruct f; simpl;
    [apply requestWeb3_handed | apply requestContract_handed..].
Qed.

Lemma resume_cache c : cache (resume c) = cache c.
Proof. unfold resume. by destruct (awaiting c). Qed.

Lemma run_invariant schedule c c' log :
  consistent c →
  run c schedule = (c', log) →
  consistent c'
  ∧ (∀ g p, cache c g = Some p → cache c' g = Some p)
  ∧ (∀ f p, (f, p) ∈ log → cache c' f = Some p).
Proof.
  revert c c' log.
  induction schedule as [|e rest IH]; intros c c' log Hc; simpl.
  - intros [= <- <-]. split; [done|]. split; [done|].
    intros f p Hin. by apply elem_of_nil in Hin.
  - destruct e as [f|].
    + pose proof (request_consistent f c Hc) as Hc1.
      pose proof (request_handed f c) as Hhanded.
      pose proof (fun g p => request_cache_stable f g c p) as Hkeep.
      destruct (request f c) as [c1 p1].
      destruct (run c1 rest) as [c2 log2] eqn:Hrun.
      intros [= <- <-].
      destruct (IH c1 c2 log2 Hc1 Hrun) as (Hc2 & Hstable & Hlog).
      split; [done|]. split.
      * intros g p Hg. by apply Hstable, Hkeep.
      * intros g p [[= -> ->] | Hin]%elem_of_cons; [|by apply Hlog].
        by apply Hstable.
    + intros Hrun.
      destruct (IH (resume c) c' log (resume_consistent c Hc) Hrun)
        as (Hc' & Hstable & Hlog).
      split; [done|]. split; [|done].
      intros g p Hg. apply Hstable. by rewrite resume_cache.
Qed.

End FactoryFacts.

(** C10: along every interleaving of requests and resumed bodies on a
    fresh client, each factory body is entered at most once and each
    underlying object is built at most once; every request of a factory
    is handed the one promise stored in its cell, so concurrent first
    requests share the initialization in flight and later requests get
    the cached object; and once no body is suspended, every requested
    factory has built exactly one object. *)
Theorem lazy_factories_single_flight (schedule : list Factory.event) :
  let c := (Factory.run Factory.fresh schedule).1 in
  let log := (Factory.run Factory.fresh schedule).2 in
  (∀ f, Factory.bodies c f ≤ 1 ∧ Factory.built c f ≤ 1)
  ∧ (∀ f p, (f, p) ∈ log → Factory.bodies c f = 1 ∧ Factory.cache c f = Some p)
  ∧ (∀ f p q, (f, p) ∈ log → (f, q) ∈ log → p = q)
  ∧ (Factory.awaiting c = [] → ∀ f p, (f, p) ∈ log → Factory.built c f = 1).
Proof.
  intros c log.
  destruct (FactoryFacts.run_invariant schedule Factory.fresh c log
              FactoryFacts.fresh_consistent)
    as ([Hbodies Hweb3 Hcontract Hnot] & _ & Hlog).
  { subst c log. by destruct (Factory.run Factory.fresh schedule). }
  assert (Hentered : ∀ f, Factory.bodies c f ≤ 1).
  { intros f. rewrite Hbodies. destruct (Factory.cache c f); lia. }
  assert (Hrequested : ∀ f p, (f, p) ∈ log → Factory.bodies c f = 1).
  { intros f p Hin. by rewrite Hbodies, (Hlog f p Hin). }
  split; [|split; [|split]].
  - intros f. split; [done|].
    destruct (decide (f = Factory.Web3)) as [->|Hf].
    + rewrite Hweb3. apply Hentered.
    + specialize (Hcontract f Hf). specialize (Hentered f). lia.
  - intros f p Hin. split; [by eapply Hrequested | by apply Hlog].
  - intros f p q Hp%Hlog Hq%Hlog. congruence.
  - intros Hidle f p Hin%Hrequested.
    destruct (decide (f = Factory.Web3)) as [->|Hf].
    + by rewrite Hweb3.
    + specialize (Hcontract f Hf).
      unfold Factory.suspended in Hcontract. rewrite Hidle in Hcontract.
      simpl in Hcontract. lia.
Qed.

Lemma lazy_factories_single_flight_witness :
  let c := (Factory.run Factory.fresh FactoryExamples.schedule).1 in
  let log := (Factory.run Factory.fresh FactoryExamples.schedule).2 in
  log = [ (Factory.VaultContract, 0); (Factory.QueryContract, 2);
          (Factory.VaultContract, 0); (Factory.Web3, 1);
          (Factory.QueryContract, 2) ]
  ∧ Factory.awaiting c = []
  ∧ Factory.built c Factory.VaultContract = 1
  ∧ Factory.built c Factory.QueryContract = 1
  ∧ Factory.built c Factory.Web3 = 1.
Proof.
  intros c log.
  destruct (lazy_factories_single_flight FactoryExamples.schedule)
    as (_ & _ & _ & Hbuilt).
  split; [reflexivity|]. split; [reflexivity|].
  split; [|split].
  - apply (Hbuilt eq_refl Factory.VaultContract 0). by left.
  - apply (Hbuilt eq_refl Factory.QueryContract 2). right. by left.
  - apply (Hbuilt eq_refl Factory.Web3 1). do 3 right. by left.
Defined.

(** * Further properties of the class *)

(** ** What the simulations return *)

Lemma well_shaped_not_invalid {A} (field : JsField A) (count : nat) :
  negb (Array_isArray field) || negb (length (elements field) =? count) = false
  ↔ ∃ l, field = JsArray l ∧ length l = count.
Proof.
  destruct field as [|b|l]; simpl.
  - split; [discriminate | by intros (l & [=] & _)].
  - split; [discriminate | by intros (l & [=] & _)].
  - rewrite negb_false_iff, Nat.eqb_eq. split.
    + intros Hlen. eauto.
    + by intros (l' & [= <-] & Hlen).
Qed.

Section Returns.

Variable env : Services.

Lemma queryJoinPool_then_Ok_iff request result response :
  queryJoinPool_then env request result = Ok response
  ↔ ∃ r amountsIn,
      result = Some r
      ∧ JoinPoolResult.amountsIn r = JsArray amountsIn
      ∧ length amountsIn
        = length (JoinPoolRequest.assets (QueryJoinPoolRequest.request request))
      ∧ response
        = {| QueryJoinPoolResponse.liquidity :=
               newBigNumber (BigNumber_parse env) (JoinPoolResult.bptOut r);
             QueryJoinPoolResponse.usedInput := BigNumber_parse env <$> amountsIn;
             QueryJoinPoolResponse.unusedInput :=
               imap
                 (fun index amount =>
                    BigNumber.minus amount
                      (default BN_NaN ((BigNumber_parse env <$> amountsIn) !! index)))
                 (JoinPoolRequest.maxAmountsIn (QueryJoinPoolRequest.request request)) |}.
Proof.
  unfold queryJoinPool_then, queryJoinPool_invalid, invalidResult.
  destruct result as [r|]; simpl.
  - destruct (negb (Array_isArray (JoinPoolResult.amountsIn r)) || _) eqn:Hshape.
    + split; [discriminate|].
      intros (r' & amountsIn & [= <-] & Hfield & Hlen & _).
      assert (Hok : negb (Array_isArray (JoinPoolResult.amountsIn r))
                    || negb (length (elements (JoinPoolResult.amountsIn r))
                             =? length (JoinPoolRequest.assets
                                          (QueryJoinPoolRequest.request request)))
                    = false)
        by (apply well_shaped_not_invalid; eauto).
      congruence.
    + apply well_shaped_not_invalid in Hshape as (amountsIn & Hfield & Hlen).
      rewrite Hfield. simpl. split.
      * intros [= <-]. exists r, amountsIn. by rewrite Hfield.
      * intros (r' & amountsIn' & [= <-] & Hfield' & _ & ->).
        rewrite Hfield in Hfield'. by injection Hfield' as <-.
  - split; [discriminate | by intros (r & ? & [=] & _)].
Qed.

Lemma queryExitPool_then_Ok_iff request result response :
  queryExitPool_then env request result = Ok response
  ↔ ∃ r amountsOut,
      result = Some r
      ∧ ExitPoolResult.amountsOut r = JsArray amountsOut
      ∧ length amountsOut
        = length (ExitPoolRequest.assets (QueryExitPoolRequest.request request))
      ∧ response
        = {| QueryExitPoolResponse.liquidity :=
               newBigNumber (BigNumber_parse env) (ExitPoolResult.bptIn r);
             QueryExitPoolResponse.outputs := BigNumber_parse env <$> amountsOut |}.
Proof.
  unfold queryExitPool_then, queryExitPool_invalid, invalidResult.
  destruct result as [r|]; simpl.
  - destruct (negb (Array_isArray (ExitPoolResult.amountsOut r)) || _) eqn:Hshape.
    + split; [discriminate|].
      intros (r' & amountsOut & [= <-] & Hfield & Hlen & _).
      assert (Hok : negb (Array_isArray (ExitPoolResult.amountsOut r))
                    || negb (length (elements (ExitPoolResult.amountsOut r))
                             =? length (ExitPoolRequest.assets
                                          (QueryExitPoolRequest.request request)))
                    = false)
        by (apply well_shaped_not_invalid; eauto).
      congruence.
    + apply well_shaped_not_invalid in Hshape as (amountsOut & Hfield & Hlen).
      rewrite Hfield. simpl. split.
      * intros [= <-]. exists r, amountsOut. by rewrite Hfield.
      * intros (r' & amountsOut' & [= <-] & Hfield' & _ & ->).
        rewrite Hfield in Hfield'. by injection Hfield' as <-.
  - split; [discriminate | by intros (r & ? & [=] & _)].
Qed.

Lemma queryBatchSwap_then_Ok_iff request result deltas :
  queryBatchSwap_then env request result = Ok deltas
  ↔ ∃ values,
      result = JsArray values
      ∧ length values = length (QueryBatchSwapRequest.assets request)
      ∧ deltas = BigNumber_parse env <$> values.
Proof.
  unfold queryBatchSwap_then, queryBatchSwap_invalid, invalidResult.
  destruct result as [|b|values]; simpl.
  - split; [discriminate | by intros (? & [=] & _)].
  - rewrite orb_true_r. split; [discriminate | by intros (? & [=] & _)].
  - destruct (length values =? _) eqn:Hlen; simpl.
    + apply Nat.eqb_eq in Hlen. split.
      * intros [= <-]. eauto.
      * by intros (values' & [= <-] & _ & ->).
    + apply Nat.eqb_neq in Hlen. split; [discriminate|].
      by intros (values' & [= <-] & Hlen' & _).
Qed.

(** X1: once the join simulation has been sent and answered, the
    operation returns exactly when the answer is an object whose
    [amountsIn] is an array with one element per asset; what it returns
    is then fixed: the liquidity read off [bptOut], the used inputs read
    off [amountsIn] in order, and one unused input per maximum. *)
Theorem queryJoinPool_returns request call result response :
  queryJoinPool_call env request = Ok call →
  query_queryJoin env call = Ok result →
  queryJoinPool env request = Ok response
  ↔ ∃ r amountsIn,
      result = Some r
      ∧ JoinPoolResult.amountsIn r = JsArray amountsIn
      ∧ length amountsIn
        = length (JoinPoolRequest.assets (QueryJoinPoolRequest.request request))
      ∧ response
        = {| QueryJoinPoolResponse.liquidity :=
               newBigNumber (BigNumber_parse env) (JoinPoolResult.bptOut r);
             QueryJoinPoolResponse.usedInput := BigNumber_parse env <$> amountsIn;
             QueryJoinPoolResponse.unusedInput :=
               imap
                 (fun index amount =>
                    BigNumber.minus amount
                      (default BN_NaN ((BigNumber_parse env <$> amountsIn) !! index)))
                 (JoinPoolRequest.maxAmountsIn (QueryJoinPoolRequest.request request)) |}.
Proof.
  intros Hcall Hresult.
  apply bind_Ok_inv in Hresult as (query & Hbinding & Hresult).
  unfold queryJoinPool. rewrite Hbinding. simpl. rewrite Hcall. simpl.
  rewrite Hresult. simpl. apply queryJoinPool_then_Ok_iff.
Qed.

(** X2: once the exit simulation has been sent and answered, the
    operation returns exactly when the answer is an object whose
    [amountsOut] is an array with one element per asset, and then
    returns the liquidity read off [bptIn] and the outputs read off
    [amountsOut], one per asset and in the order of the answer. *)
Theorem queryExitPool_returns request call result response :
  queryExitPool_call env request = Ok call →
  query_queryExit env call = Ok result →
  queryExitPool env request = Ok response
  ↔ ∃ r amountsOut,
      result = Some r
      ∧ ExitPoolResult.amountsOut r = JsArray amountsOut
      ∧ length amountsOut
        = length (ExitPoolRequest.assets (QueryExitPoolRequest.request request))
      ∧ response
        = {| QueryExitPoolResponse.liquidity :=
               newBigNumber (BigNumber_parse env) (ExitPoolResult.bptIn r);
             QueryExitPoolResponse.outputs := BigNumber_parse env <$> amountsOut |}.
Proof.
  intros Hcall Hresult.
  apply bind_Ok_inv in Hresult as (query & Hbinding & Hresult).
  unfold queryExitPool. rewrite Hbinding. simpl. rewrite Hcall. simpl.
  rewrite Hresult. simpl. apply queryExitPool_then_Ok_iff.
Qed.

(** X3: once the batch swap simulation has been sent and answered, the
    operation returns exactly when the answer is an array with one
    element per asset, and then returns the deltas read off it, one per
    asset and in the order of the answer. *)
Theorem queryBatchSwap_returns request call result deltas :
  queryBatchSwap_call env request = Ok call →
  vault_queryBatchSwap env call = Ok result →
  queryBatchSwap env request = Ok deltas
  ↔ ∃ values,
      result = JsArray values
      ∧ length values = length (QueryBatchSwapRequest.assets request)
      ∧ deltas = BigNumber_parse env <$> values.
Proof.
  intros Hcall Hresult.
  apply bind_Ok_inv in Hresult as (vault & Hbinding & Hresult).
  unfold queryBatchSwap. rewrite Hbinding. simpl. rewrite Hcall. simpl.
  rewrite Hresult. simpl. apply queryBatchSwap_then_Ok_iff.
Qed.

(** X4: the liquidity amount is not validated: an answer with
    well-shaped amounts but without [bptOut], respectively [bptIn],
    makes the join, respectively the exit, simulation return with a
    liquidity that is NaN. *)
Theorem query_missing_liquidity_is_NaN :
  (∀ request call r amountsIn,
      queryJoinPool_call env request = Ok call →
      query_queryJoin env call = Ok (Some r) →
      JoinPoolResult.amountsIn r = JsArray amountsIn →
      length amountsIn
      = length (JoinPoolRequest.assets (QueryJoinPoolRequest.request request)) →
      JoinPoolResult.bptOut r = None →
      ∃ response,
        queryJoinPool env request = Ok response
        ∧ QueryJoinPoolResponse.liquidity response = BN_NaN)
  ∧ (∀ request call r amountsOut,
        queryExitPool_call env request = Ok call →
        query_queryExit env call = Ok (Some r) →
        ExitPoolResult.amountsOut r = JsArray amountsOut →
        length amountsOut
        = length (ExitPoolRequest.assets (QueryExitPoolRequest.request request)) →
        ExitPoolResult.bptIn r = None →
        ∃ response,
          queryExitPool env request = Ok response
          ∧ QueryExitPoolResponse.liquidity response = BN_NaN).
Proof.
  split.
  - intros request call r amountsIn Hcall Hresult Hfield Hlen Hliquidity.
    eexists. split.
    + apply bind_Ok_inv in Hresult as (query & Hquery & Hresult).
      unfold queryJoinPool. rewrite Hquery. simpl. rewrite Hcall. simpl.
      rewrite Hresult. simpl. apply queryJoinPool_then_Ok_iff.
      exists r, amountsIn. repeat split; done.
    + simpl. by rewrite Hliquidity.
  - intros request call r amountsOut Hcall Hresult Hfield Hlen Hliquidity.
    eexists. split.
    + apply bind_Ok_inv in Hresult as (query & Hquery & Hresult).
      unfold queryExitPool. rewrite Hquery. simpl. rewrite Hcall. simpl.
      rewrite Hresult. simpl. apply queryExitPool_then_Ok_iff.
      exists r, amountsOut. repeat split; done.
    + simpl. by rewrite Hliquidity.
Qed.

(** X5: a used amount above the maximum is not rejected: the operation
    returns, and the unused input at that index is the negative
    difference. *)
Theorem queryJoinPool_overdrawn request response i (m u : Q) :
  queryJoinPool env request = Ok response →
  JoinPoolRequest.maxAmountsIn (QueryJoinPoolRequest.request request) !! i
  = Some (BN m) →
  QueryJoinPoolResponse.usedInput response !! i = Some (BN u) →
  (m < u)%Q →
  ∃ d,
    QueryJoinPoolResponse.unusedInput response !! i = Some (BN d)
    ∧ (d == m - u)%Q
    ∧ (d < 0)%Q.
Proof.
  intros (call & result & _ & _ & Hthen)%queryJoinPool_Ok_inv Hm Hu Hlt.
  apply queryJoinPool_then_Ok in Hthen as (amountsIn & _ & _ & Hused & ->).
  rewrite Hused in Hu.
  exists (m + - u)%Q.
  rewrite list_lookup_imap, Hm. simpl. rewrite Hu. simpl.
  split; [done|]. split; [reflexivity|].
  apply (Qplus_lt_l _ _ u). ring_simplify. exact Hlt.
Qed.

(** X6: maxima beyond the last asset are not rejected either: each of
    them gets an unused input, and that unused input is NaN, the
    difference with a used amount that is not there. *)
Theorem queryJoinPool_surplus_maxima request response i m :
  queryJoinPool env request = Ok response →
  length (JoinPoolRequest.assets (QueryJoinPoolRequest.request request)) ≤ i →
  JoinPoolRequest.maxAmountsIn (QueryJoinPoolRequest.request request) !! i = Some m →
  QueryJoinPoolResponse.usedInput response !! i = None
  ∧ QueryJoinPoolResponse.unusedInput response !! i = Some BN_NaN.
Proof.
  intros (call & result & _ & _ & Hthen)%queryJoinPool_Ok_inv Hi Hm.
  apply queryJoinPool_then_Ok in Hthen as (amountsIn & _ & Hlen & -> & ->).
  assert (Hnone : ((fun amount => BigNumber_parse env amount) <$> amountsIn) !! i = None).
  { apply lookup_ge_None_2. rewrite length_fmap. lia. }
  split; [done|].
  rewrite list_lookup_imap, Hm. simpl. rewrite Hnone. simpl.
  by destruct m.
Qed.

End Returns.

Lemma queryJoinPool_returns_witness :
  ∃ response,
    queryJoinPool MoreQueryExamples.env
      (MoreQueryExamples.joinRequest [BigNumber.of_Z 10; BigNumber.of_Z 20])
    = Ok response
    ∧ QueryJoinPoolResponse.usedInput response
      = [BigNumber.of_Z 30; BigNumber.of_Z 4].
Proof.
  eexists. split.
  - eapply (queryJoinPool_returns MoreQueryExamples.env
              (MoreQueryExamples.joinRequest [BigNumber.of_Z 10; BigNumber.of_Z 20]));
      [reflexivity | reflexivity |].
    eexists _, ["30"; "4"]. repeat split; reflexivity.
  - reflexivity.
Defined.

Lemma queryExitPool_returns_witness :
  ∃ response,
    queryExitPool MoreQueryExamples.env QueryExamples.exitRequest = Ok response
    ∧ QueryExitPoolResponse.outputs response = [BigNumber.of_Z 5; BigNumber.of_Z 6].
Proof.
  eexists. split.
  - eapply (queryExitPool_returns MoreQueryExamples.env QueryExamples.exitRequest);
      [reflexivity | reflexivity |].
    eexists _, ["5"; "6"]. repeat split; reflexivity.
  - reflexivity.
Defined.

Lemma queryBatchSwap_returns_witness :
  queryBatchSwap MoreQueryExamples.env QueryExamples.batchRequest
  = Ok [BigNumber.of_Z 5; BigNumber.of_Z 7].
Proof.
  eapply (queryBatchSwap_returns MoreQueryExamples.env QueryExamples.batchRequest);
    [reflexivity | reflexivity |].
  exists ["5"; "7"]. repeat split; reflexivity.
Defined.

Lemma query_missing_liquidity_is_NaN_witness :
  (∃ response,
      queryJoinPool MoreQueryExamples.env
        (MoreQueryExamples.joinRequest [BigNumber.of_Z 10; BigNumber.of_Z 20])
      = Ok response
      ∧ QueryJoinPoolResponse.liquidity response = BN_NaN)
  ∧ (∃ response,
        queryExitPool MoreQueryExamples.env QueryExamples.exitRequest = Ok response
        ∧ QueryExitPoolResponse.liquidity response = BN_NaN).
Proof.
  destruct (query_missing_liquidity_is_NaN MoreQueryExamples.env) as [Hjoin Hexit].
  split.
  - eapply (Hjoin (MoreQueryExamples.joinRequest [BigNumber.of_Z 10; BigNumber.of_Z 20])
              _ _ ["30"; "4"]); reflexivity.
  - eapply (Hexit QueryExamples.exitRequest _ _ ["5"; "6"]); reflexivity.
Defined.

Lemma queryJoinPool_overdrawn_witness :
  ∃ response d,
    queryJoinPool MoreQueryExamples.env
      (MoreQueryExamples.joinRequest [BigNumber.of_Z 10; BigNumber.of_Z 20])
    = Ok response
    ∧ QueryJoinPoolResponse.unusedInput response !! 0 = Some (BN d)
    ∧ (d == inject_Z 10 - inject_Z 30)%Q
    ∧ (d < 0)%Q.
Proof.
  eexists.
  destruct (queryJoinPool_overdrawn MoreQueryExamples.env
              (MoreQueryExamples.joinRequest [BigNumber.of_Z 10; BigNumber.of_Z 20])
              _ 0 (inject_Z 10) (inject_Z 30) eq_refl eq_refl eq_refl)
    as (d & Hd); [reflexivity|].
  exists d. split; [reflexivity | exact Hd].
Defined.

Lemma queryJoinPool_surplus_maxima_witness :
  ∃ response,
    queryJoinPool MoreQueryExamples.env
      (MoreQueryExamples.joinRequest
         [BigNumber.of_Z 40; BigNumber.of_Z 20; BigNumber.of_Z 7])
    = Ok response
    ∧ QueryJoinPoolResponse.usedInput response !! 2 = None
    ∧ QueryJoinPoolResponse.unusedInput response !! 2 = Some BN_NaN.
Proof.
  eexists. split; [reflexivity|].
  apply (queryJoinPool_surplus_maxima MoreQueryExamples.env
           (MoreQueryExamples.joinRequest
              [BigNumber.of_Z 40; BigNumber.of_Z 20; BigNumber.of_Z 7])
           _ 2 (BigNumber.of_Z 7) eq_refl); [simpl; lia | reflexivity].
Defined.

(** ** Amounts the conversion refuses *)

Lemma sequence_fmap_Throw_iff {A B} (f : A → Result B) (e0 : Error)
    (l : list A) (e : Error) :
  (∀ x, x ∈ l → f x = Throw e0 ∨ ∃ o, f x = Ok o) →
  sequence (f <$> l) = Throw e ↔ e = e0 ∧ ∃ x, x ∈ l ∧ f x = Throw e0.
Proof.
  induction l as [|x l IH]; intros Hall; simpl.
  - split; [discriminate|]. intros (_ & y & Hy & _). by apply elem_of_nil in Hy.
  - assert (Hrest : ∀ y, y ∈ l → f y = Throw e0 ∨ ∃ o, f y = Ok o)
      by (intros y Hy; apply Hall; by right).
    specialize (IH Hrest).
    change (list_fmap A (Result B) f l) with (f <$> l).
    assert (Hhead : x ∈ x :: l) by left.
    destruct (Hall x Hhead) as [Hx | [o Hx]]; rewrite Hx; simpl.
    + split.
      * intros [= <-]. split; [done|]. exists x. split; [left | done].
      * by intros [-> _].
    + destruct (sequence (f <$> l)) as [os|e'] eqn:Hseq; simpl.
      * split; [discriminate|].
        intros (-> & y & [-> | Hy]%elem_of_cons & Hfy); [congruence|].
        exfalso. destruct IH as [_ IH].
        assert (Hc : @Ok (list B) os = Throw e0) by (apply IH; eauto).
        discriminate.
      * split.
        -- intros [= ->]. destruct IH as [IH _].
           destruct (IH eq_refl) as (-> & y & Hy & Hfy).
           split; [done|]. exists y. split; [by right | done].
        -- intros (-> & y & [-> | Hy]%elem_of_cons & Hfy); [congruence|].
           destruct IH as [_ IH]. apply IH. split; [done|]. eauto.
Qed.

Section Refused.

Variable env : Services.

Lemma uint256String_cases amount :
  (uint256String env amount = Throw (Error_bigNumberToString false)
   ∧ bigNumberToUint256String env amount = None)
  ∨ (∃ s, uint256String env amount = Ok (ArgString s)
          ∧ bigNumberToUint256String env amount = Some s).
Proof.
  unfold uint256String.
  destruct (bigNumberToUint256String env amount) as [s|]; simpl; eauto.
Qed.

Lemma uint256Strings_Throw_iff amounts e :
  uint256Strings env amounts = Throw e
  ↔ e = Error_bigNumberToString false
    ∧ ∃ amount, amount ∈ amounts ∧ bigNumberToUint256String env amount = None.
Proof.
  unfold uint256Strings.
  rewrite (sequence_fmap_Throw_iff _ (Error_bigNumberToString false)).
  - split; intros (-> & amount & Hin & H); (split; [done|]); exists amount;
      (split; [done|]).
    + by destruct (uint256String_cases amount) as [[_ ?] | (s & Hs & _)]; [|congruence].
    + by destruct (uint256String_cases amount) as [[? _] | (s & _ & Hs)]; [|congruence].
  - intros amount _.
    destruct (uint256String_cases amount) as [[? _] | (s & ? & _)]; eauto.
Qed.

Lemma swapObject_cases swap :
  (swapObject env swap = Throw (Error_bigNumberToString false)
   ∧ bigNumberToUint256String env (BatchSwapStep.amount swap) = None)
  ∨ (∃ s, swapObject env swap
          = Ok (ArgObject
                  [ ("poolId", ArgString (BatchSwapStep.poolId swap));
                    ("assetInIndex", ArgNumber (BatchSwapStep.assetInIndex swap));
                    ("assetOutIndex", ArgNumber (BatchSwapStep.assetOutIndex swap));
                    ("amount", ArgString s);
                    ("userData", ArgBytes (BatchSwapStep.userData swap)) ])
          ∧ bigNumberToUint256String env (BatchSwapStep.amount swap) = Some s).
Proof.
  unfold swapObject.
  destruct (uint256String_cases (BatchSwapStep.amount swap))
    as [[-> ?] | (s & -> & ?)]; simpl; eauto.
Qed.

(** X7: in each of the three simulations the contract binding is
    awaited first and the amounts are converted next, before anything
    is sent.  A binding that cannot be obtained makes the operation
    throw the error of the binding, whatever the amounts; once the
    binding is there, an amount that the unsigned conversion refuses
    makes the operation throw the conversion error, whatever the
    contract would have answered; and when no amount is refused the
    argument list is built. *)
Theorem query_refused_amount :
  (∀ request,
      (∀ e, getQueryContract env = Throw e → queryJoinPool env request = Throw e)
      ∧ (∀ query,
            getQueryContract env = Ok query →
            (∃ amount,
                amount ∈ JoinPoolRequest.maxAmountsIn
                           (QueryJoinPoolRequest.request request)
                ∧ bigNumberToUint256String env amount = None) →
            queryJoinPool env request = Throw (Error_bigNumberToString false))
      ∧ ((∀ amount,
             amount ∈ JoinPoolRequest.maxAmountsIn (QueryJoinPoolRequest.request request)
             → is_Some (bigNumberToUint256String env amount))
         → ∃ call, queryJoinPool_call env request = Ok call))
  ∧ (∀ request,
        (∀ e, getQueryContract env = Throw e → queryExitPool env request = Throw e)
        ∧ (∀ query,
              getQueryContract env = Ok query →
              (∃ amount,
                  amount ∈ ExitPoolRequest.minAmountsOut
                             (QueryExitPoolRequest.request request)
                  ∧ bigNumberToUint256String env amount = None) →
              queryExitPool env request = Throw (Error_bigNumberToString false))
        ∧ ((∀ amount,
               amount ∈ ExitPoolRequest.minAmountsOut (QueryExitPoolRequest.request request)
               → is_Some (bigNumberToUint256String env amount))
           → ∃ call, queryExitPool_call env request = Ok call))
  ∧ (∀ request,
        (∀ e, getVaultContract env = Throw e → queryBatchSwap env request = Throw e)
        ∧ (∀ vault,
              getVaultContract env = Ok vault →
              (∃ swap,
                  swap ∈ QueryBatchSwapRequest.swaps request
                  ∧ bigNumberToUint256String env (BatchSwapStep.amount swap) = None) →
              queryBatchSwap env request = Throw (Error_bigNumberToString false))
        ∧ ((∀ swap,
               swap ∈ QueryBatchSwapRequest.swaps request
               → is_Some (bigNumberToUint256String env (BatchSwapStep.amount swap)))
           → ∃ call, queryBatchSwap_call env request = Ok call)).
Proof.
  split; [|split]; intros request; (split; [|split]).
  - intros e He. unfold queryJoinPool. by rewrite He.
  - intros query Hquery Hrefused.
    assert (H : uint256Strings env
                  (JoinPoolRequest.maxAmountsIn (QueryJoinPoolRequest.request request))
                = Throw (Error_bigNumberToString false))
      by (by apply uint256Strings_Throw_iff).
    unfold queryJoinPool, queryJoinPool_call. rewrite Hquery. simpl. by rewrite H.
  - intros Hall. unfold queryJoinPool_call. simpl.
    destruct (uint256Strings env _) as [amounts|e] eqn:H; simpl; [eauto|].
    apply uint256Strings_Throw_iff in H as (_ & amount & Hin & Hnone).
    destruct (Hall amount Hin) as [s Hs]. congruence.
  - intros e He. unfold queryExitPool. by rewrite He.
  - intros query Hquery Hrefused.
    assert (H : uint256Strings env
                  (ExitPoolRequest.minAmountsOut (QueryExitPoolRequest.request request))
                = Throw (Error_bigNumberToString false))
      by (by apply uint256Strings_Throw_iff).
    unfold queryExitPool, queryExitPool_call. rewrite Hquery. simpl. by rewrite H.
  - intros Hall. unfold queryExitPool_call. simpl.
    destruct (uint256Strings env _) as [amounts|e] eqn:H; simpl; [eauto|].
    apply uint256Strings_Throw_iff in H as (_ & amount & Hin & Hnone).
    destruct (Hall amount Hin) as [s Hs]. congruence.
  - intros e He. unfold queryBatchSwap. by rewrite He.
  - intros vault Hvault (swap & Hin & Hnone).
    assert (H : sequence (swapObject env <$> QueryBatchSwapRequest.swaps request)
                = Throw (Error_bigNumberToString false)).
    { apply (sequence_fmap_Throw_iff _ (Error_bigNumberToString false)).
      - intros s _. destruct (swapObject_cases s) as [[? _] | (a & ? & _)]; eauto.
      - split; [done|]. exists swap. split; [done|].
        destruct (swapObject_cases swap) as [[? _] | (a & _ & ?)]; [done | congruence]. }
    unfold queryBatchSwap, queryBatchSwap_call. rewrite Hvault. simpl. by rewrite H.
  - intros Hall. unfold queryBatchSwap_call.
    destruct (sequence _) as [swaps|e] eqn:H; simpl; [eauto|].
    apply (sequence_fmap_Throw_iff _ (Error_bigNumberToString false)) in H
      as (_ & swap & Hin & Hthrow).
    + destruct (Hall swap Hin) as [s Hs].
      destruct (swapObject_cases swap) as [[_ ?] | (a & ? & _)]; congruence.
    + intros s _. destruct (swapObject_cases s) as [[? _] | (a & ? & _)]; eauto.
Qed.

Lemma queryBatchSwap_call_Ok_iff request call :
  queryBatchSwap_call env request = Ok call
  ↔ ∃ swaps,
      Forall2
        (fun swap o =>
           ∃ s,
             bigNumberToUint256String env (BatchSwapStep.amount swap) = Some s
             ∧ o = ArgObject
                     [ ("poolId", ArgString (BatchSwapStep.poolId swap));
                       ("assetInIndex", ArgNumber (BatchSwapStep.assetInIndex swap));
                       ("assetOutIndex", ArgNumber (BatchSwapStep.assetOutIndex swap));
                       ("amount", ArgString s);
                       ("userData", ArgBytes (BatchSwapStep.userData swap)) ])
        (QueryBatchSwapRequest.swaps request) swaps
      ∧ call
        = [ ArgNumber (QueryBatchSwapRequest.kind request);
            ArgArray swaps;
            ArgArray (ArgString <$> QueryBatchSwapRequest.assets request);
            ArgObject
              [ ("sender", ArgString ZERO_ADDRESS);
                ("fromInternalBalance", ArgBoolean false);
                ("recipient", ArgString ZERO_ADDRESS);
                ("toInternalBalance", ArgBoolean false) ] ].
Proof.
  assert (Hswap : ∀ swap o,
    swapObject env swap = Ok o
    ↔ ∃ s,
        bigNumberToUint256String env (BatchSwapStep.amount swap) = Some s
        ∧ o = ArgObject
                [ ("poolId", ArgString (BatchSwapStep.poolId swap));
                  ("assetInIndex", ArgNumber (BatchSwapStep.assetInIndex swap));
                  ("assetOutIndex", ArgNumber (BatchSwapStep.assetOutIndex swap));
                  ("amount", ArgString s);
                  ("userData", ArgBytes (BatchSwapStep.userData swap)) ]).
  { intros swap o.
    destruct (swapObject_cases swap) as [[-> Hnone] | (s & -> & Hs)].
    - split; [discriminate|]. intros (s & Hs & _). congruence.
    - split.
      + intros [= <-]. eauto.
      + intros (s' & Hs' & ->). congruence. }
  unfold queryBatchSwap_call. split.
  - intros (swaps & Hswaps & [= <-])%bind_Ok_inv.
    exists swaps. split; [|done].
    apply sequence_fmap_Ok_iff in Hswaps.
    eapply Forall2_impl; [exact Hswaps|]. intros swap o. apply Hswap.
  - intros (swaps & Hswaps & ->).
    assert (H : sequence (swapObject env <$> QueryBatchSwapRequest.swaps request)
                = Ok swaps).
    { apply sequence_fmap_Ok_iff. eapply Forall2_impl; [exact Hswaps|].
      intros swap o. apply Hswap. }
    by rewrite H.
Qed.

(** X8: once the vault binding has been obtained and every swap amount
    has its unsigned string, [queryBatchSwap] is the validation of what
    the binding answers to one call, and that call carries the kind,
    one object per swap in order with its amount as the unsigned
    string, the assets, and the query funds: both addresses zero and
    both internal balance flags off, whatever funds the request
    carries. *)
Theorem queryBatchSwap_sends request vault swaps :
  getVaultContract env = Ok vault →
  Forall2
    (fun swap o =>
       ∃ s,
         bigNumberToUint256String env (BatchSwapStep.amount swap) = Some s
         ∧ o = ArgObject
                 [ ("poolId", ArgString (BatchSwapStep.poolId swap));
                   ("assetInIndex", ArgNumber (BatchSwapStep.assetInIndex swap));
                   ("assetOutIndex", ArgNumber (BatchSwapStep.assetOutIndex swap));
                   ("amount", ArgString s);
                   ("userData", ArgBytes (BatchSwapStep.userData swap)) ])
    (QueryBatchSwapRequest.swaps request) swaps →
  let sent :=
    [ ArgNumber (QueryBatchSwapRequest.kind request);
      ArgArray swaps;
      ArgArray (ArgString <$> QueryBatchSwapRequest.assets request);
      ArgObject
        [ ("sender", ArgString ZERO_ADDRESS);
          ("fromInternalBalance", ArgBoolean false);
          ("recipient", ArgString ZERO_ADDRESS);
          ("toInternalBalance", ArgBoolean false) ] ] in
  queryBatchSwap env request
  = (result ← VaultContract.queryBatchSwap vault sent;
     queryBatchSwap_then env request result)
  ∧ ∀ e, VaultContract.queryBatchSwap vault sent = Throw e →
         queryBatchSwap env request = Throw e.
Proof.
  intros Hvault Hswaps sent.
  assert (Hcall : queryBatchSwap_call env request = Ok sent)
    by (apply queryBatchSwap_call_Ok_iff; eauto).
  assert (Hsent :
    queryBatchSwap env request
    = (result ← VaultContract.queryBatchSwap vault sent;
       queryBatchSwap_then env request result)).
  { unfold queryBatchSwap. rewrite Hvault. simpl. by rewrite Hcall. }
  split; [done|]. intros e He. by rewrite Hsent, He.
Qed.

End Refused.

Lemma query_refused_amount_witness :
  queryJoinPool MoreQueryExamples.env
    (MoreQueryExamples.joinRequest [BigNumber.of_Z 10; BigNumber.of_Z (-1)])
  = Throw (Error_bigNumberToString false)
  ∧ queryExitPool MoreQueryExamples.env RefusedExamples.exitRequest
    = Throw (Error_bigNumberToString false)
  ∧ queryBatchSwap MoreQueryExamples.env RefusedExamples.batchRequest
    = Throw (Error_bigNumberToString false)
  ∧ queryBatchSwap SenderExamples.env RefusedExamples.batchRequest
    = Throw (Error_call "no vault binding")
  ∧ ∃ call, queryBatchSwap_call MoreQueryExamples.env QueryExamples.batchRequest = Ok call.
Proof.
  destruct (query_refused_amount MoreQueryExamples.env) as (Hjoin & Hexit & Hbatch).
  split; [|split; [|split; [|split]]].
  - eapply Hjoin; [reflexivity|]. exists (BigNumber.of_Z (-1)).
    split; [right; left | reflexivity].
  - eapply Hexit; [reflexivity|]. exists BN_NaN. split; [right; left | reflexivity].
  - eapply Hbatch; [reflexivity|]. eexists. split; [left | reflexivity].
  - by apply (query_refused_amount SenderExamples.env).
  - apply Hbatch. intros swap ->%list_elem_of_singleton. by eexists.
Defined.

Lemma queryBatchSwap_sends_witness :
  QueryBatchSwapRequest.funds BatchFundsExamples.request = Some SwapExamples.funds
  ∧ queryBatchSwap BatchFundsExamples.env BatchFundsExamples.request
    = Ok [BigNumber.of_Z 5; BigNumber.of_Z 7].
Proof.
  split; [reflexivity|].
  destruct (queryBatchSwap_sends BatchFundsExamples.env BatchFundsExamples.request
              BatchFundsExamples.vault
              [ ArgObject
                  [ ("poolId", ArgString "0x01");
                    ("assetInIndex", ArgNumber 0);
                    ("assetOutIndex", ArgNumber 1);
                    ("amount", ArgString "5");
                    ("userData", ArgBytes []) ] ]
              eq_refl) as [-> _].
  - constructor; [|constructor]. exists "5". split; reflexivity.
  - reflexivity.
Defined.

(** ** The encoders *)

Lemma find_first {A} (p : A → bool) (l : list A) (x : A) :
  List.find p l = Some x
  ↔ ∃ i,
      l !! i = Some x
      ∧ p x = true
      ∧ ∀ j y, j < i → l !! j = Some y → p y = false.
Proof.
  induction l as [|a l IH]; simpl.
  - split; [discriminate | by intros (i & Hi & _)].
  - destruct (p a) eqn:Hpa.
    + split.
      * intros [= <-]. exists 0. split; [done|]. split; [done|]. intros j y Hj. lia.
      * intros ([|i] & Hi & Hpx & Hfirst).
        -- by injection Hi as <-.
        -- specialize (Hfirst 0 a ltac:(lia) eq_refl). congruence.
    + rewrite IH. split.
      * intros (i & Hi & Hpx & Hfirst). exists (S i).
        split; [done|]. split; [done|].
        intros [|j] y Hj Hy; [by injection Hy as <-|].
        apply (Hfirst j y); [lia | done].
      * intros ([|i] & Hi & Hpx & Hfirst).
        -- injection Hi as <-. congruence.
        -- exists i. split; [done|]. split; [done|].
           intros j y Hj Hy. apply (Hfirst (S j) y); [lia | done].
Qed.

Lemma find_none_iff {A} (p : A → bool) (l : list A) :
  List.find p l = None ↔ ∀ x, x ∈ l → p x = false.
Proof.
  induction l as [|a l IH]; simpl.
  - split; [|done]. intros _ x Hx. by apply elem_of_nil in Hx.
  - destruct (p a) eqn:Hpa.
    + split; [discriminate|]. intros Hall.
      specialize (Hall a ltac:(left)). congruence.
    + rewrite IH. split.
      * intros Hall x [-> | Hx]%elem_of_cons; auto.
      * intros Hall x Hx. apply Hall. by right.
Qed.

Lemma is_function_test name abi :
  String.eqb (abi_type abi) "function" && String.eqb (abi_name abi) name = true
  ↔ is_function name abi.
Proof.
  unfold is_function. by rewrite andb_true_iff, !String.eqb_eq.
Qed.

Lemma is_function_test_false name abi :
  String.eqb (abi_type abi) "function" && String.eqb (abi_name abi) name = false
  ↔ ¬ is_function name abi.
Proof.
  rewrite <- is_function_test. by destruct (_ && _).
Qed.

Section Encoders.

Variable env : Services.
Variable config : VaultConfig.

Lemma getVaultFunctionAbi_Throw_iff name e :
  getVaultFunctionAbi env name = Throw e
  ↔ e = Error_FunctionNotInAbi name
    ∧ ∀ abi, abi ∈ BalancerVaultAbi env → ¬ is_function name abi.
Proof.
  unfold getVaultFunctionAbi.
  destruct (List.find _ (BalancerVaultAbi env)) as [found|] eqn:Hfind; simpl.
  - split; [discriminate|]. intros (_ & Hnone).
    apply find_first in Hfind as (i & Hi & Hp%is_function_test & _).
    destruct (Hnone found); [by eapply list_elem_of_lookup_2 | done].
  - rewrite find_none_iff in Hfind. split.
    + intros [= <-]. split; [done|].
      intros abi Hin. by apply is_function_test_false, Hfind.
    + by intros (-> & _).
Qed.

(** X10: the lookup of a vault function returns the first entry of the
    ABI that is a function with exactly the requested name, and throws
    the not-found error for that name exactly when the ABI has no such
    entry; an entry of another type with the same name does not
    count. *)
Theorem getVaultFunctionAbi_spec name :
  (∀ abi,
      getVaultFunctionAbi env name = Ok abi
      ↔ ∃ i,
          BalancerVaultAbi env !! i = Some abi
          ∧ is_function name abi
          ∧ ∀ j other, j < i → BalancerVaultAbi env !! j = Some other →
                       ¬ is_function name other)
  ∧ (∀ e,
        getVaultFunctionAbi env name = Throw e
        ↔ e = Error_FunctionNotInAbi name
          ∧ ∀ abi, abi ∈ BalancerVaultAbi env → ¬ is_function name abi).
Proof.
  split; [|apply getVaultFunctionAbi_Throw_iff].
  intros abi.
  unfold getVaultFunctionAbi.
  destruct (List.find _ (BalancerVaultAbi env)) as [found|] eqn:Hfind; simpl.
  - apply find_first in Hfind as (i & Hi & Hp & Hfirst).
    apply is_function_test in Hp. split.
    + intros [= <-]. exists i. split; [done|]. split; [done|].
      intros j other Hj Hother. by apply is_function_test_false, (Hfirst j).
    + intros (i' & Hi' & Hp' & Hfirst'). f_equal.
      destruct (Nat.lt_trichotomy i i') as [Hlt | [-> | Hlt]].
      * by destruct (Hfirst' i found Hlt Hi).
      * congruence.
      * apply is_function_test in Hp'.
        specialize (Hfirst i' abi Hlt Hi'). congruence.
  - split; [discriminate|].
    intros (i & Hi & Hp%is_function_test & _).
    rewrite find_none_iff in Hfind.
    rewrite (Hfind abi) in Hp; [discriminate|]. by eapply list_elem_of_lookup_2.
Qed.

Lemma getVaultFunctionAbi_missing name :
  (∀ abi, abi ∈ BalancerVaultAbi env → ¬ is_function name abi) →
  getVaultFunctionAbi env name = Throw (Error_FunctionNotInAbi name).
Proof. intros Hnone. by apply getVaultFunctionAbi_Throw_iff. Qed.

(** X9: simulation and execution use the same wire arguments.  The
    list [encodeJoinPool] hands to the coder is the list the join
    simulation would send for the same pool id and request, with the
    sender and the recipient of the arguments put in place of the two
    zero addresses; likewise for [encodeExitPool] and the exit
    simulation. *)
Theorem encode_matches_simulation :
  (∀ args sender recipient call,
      queryJoinPool_call env
        {| QueryJoinPoolRequest.poolId := JoinPoolArgs.poolId args;
           QueryJoinPoolRequest.request := JoinPoolArgs.request args;
           QueryJoinPoolRequest.sender := sender;
           QueryJoinPoolRequest.recipient := recipient |}
      = Ok call →
      encodeJoinPool env args
      = methodAbi ← getVaultFunctionAbi env "joinPool";
        encodeFunctionCall env methodAbi
          (<[1 := ArgString (JoinPoolArgs.sender args)]>
             (<[2 := ArgString (JoinPoolArgs.recipient args)]> call)))
  ∧ (∀ args sender recipient call,
        queryExitPool_call env
          {| QueryExitPoolRequest.poolId := ExitPoolArgs.poolId args;
             QueryExitPoolRequest.request := ExitPoolArgs.request args;
             QueryExitPoolRequest.sender := sender;
             QueryExitPoolRequest.recipient := recipient |}
        = Ok call →
        encodeExitPool env args
        = methodAbi ← getVaultFunctionAbi env "exitPool";
          encodeFunctionCall env methodAbi
            (<[1 := ArgString (ExitPoolArgs.sender args)]>
               (<[2 := ArgString (ExitPoolArgs.recipient args)]> call))).
Proof.
  split; intros args sender recipient call Hcall.
  - apply queryJoinPool_call_Ok_inv in Hcall as (amounts & Hamounts & ->).
    simpl in Hamounts. unfold encodeJoinPool.
    destruct (getVaultFunctionAbi env "joinPool") as [methodAbi|e]; simpl; [|done].
    by rewrite Hamounts.
  - apply queryExitPool_call_Ok_inv in Hcall as (amounts & Hamounts & ->).
    simpl in Hamounts. unfold encodeExitPool.
    destruct (getVaultFunctionAbi env "exitPool") as [methodAbi|e]; simpl; [|done].
    by rewrite Hamounts.
Qed.

(** X11: a function that the ABI lacks is reported before anything
    else.  Without a function entry of its name each encoder throws the
    not-found error for that name whatever its arguments, and so does
    the zap builder on top of it, with or without balance insertion and,
    for the exit, whatever [userData] holds. *)
Theorem missing_function_comes_first :
  ((∀ abi, abi ∈ BalancerVaultAbi env → ¬ is_function "joinPool" abi) →
   (∀ args, encodeJoinPool env args = Throw (Error_FunctionNotInAbi "joinPool"))
   ∧ (∀ request,
         getJoinPoolZap env config request
         = Throw (Error_FunctionNotInAbi "joinPool")))
  ∧ ((∀ abi, abi ∈ BalancerVaultAbi env → ¬ is_function "exitPool" abi) →
     (∀ args, encodeExitPool env args = Throw (Error_FunctionNotInAbi "exitPool"))
     ∧ (∀ request,
           getExitPoolZap env config request
           = Throw (Error_FunctionNotInAbi "exitPool")))
  ∧ ((∀ abi, abi ∈ BalancerVaultAbi env → ¬ is_function "swap" abi) →
     (∀ args, encodeSwap env args = Throw (Error_FunctionNotInAbi "swap"))
     ∧ (∀ request,
           getSwapZap env config request = Throw (Error_FunctionNotInAbi "swap")))
  ∧ ((∀ abi, abi ∈ BalancerVaultAbi env → ¬ is_function "batchSwap" abi) →
     ∀ args, encodeBatchSwap env args = Throw (Error_FunctionNotInAbi "batchSwap")).
Proof.
  split; [|split; [|split]]; intros Hnone%getVaultFunctionAbi_missing.
  - assert (H : ∀ args,
      encodeJoinPool env args = Throw (Error_FunctionNotInAbi "joinPool"))
      by (intros args; unfold encodeJoinPool; by rewrite Hnone).
    split; [done|]. intros request. unfold getJoinPoolZap. by rewrite H.
  - assert (H : ∀ args,
      encodeExitPool env args = Throw (Error_FunctionNotInAbi "exitPool"))
      by (intros args; unfold encodeExitPool; by rewrite Hnone).
    split; [done|]. intros request. unfold getExitPoolZap. by rewrite H.
  - assert (H : ∀ args, encodeSwap env args = Throw (Error_FunctionNotInAbi "swap"))
      by (intros args; unfold encodeSwap; by rewrite Hnone).
    split; [done|]. intros request. unfold getSwapZap. by rewrite H.
  - intros args. unfold encodeBatchSwap. by rewrite Hnone.
Qed.

(** X12: no encoder hands a refused amount to the coder.  With its
    function in the ABI, [encodeJoinPool] and [encodeExitPool] throw
    the unsigned conversion error as soon as one amount is refused,
    [encodeSwap] as soon as the input amount or the limit is refused,
    [encodeBatchSwap] as soon as the amount of one swap is refused; and
    when all swap amounts pass, a limit the signed conversion refuses
    makes [encodeBatchSwap] throw the signed conversion error. *)
Theorem encoder_refused_amount :
  (∀ args methodAbi,
      getVaultFunctionAbi env "joinPool" = Ok methodAbi →
      (∃ amount,
          amount ∈ JoinPoolRequest.maxAmountsIn (JoinPoolArgs.request args)
          ∧ bigNumberToUint256String env amount = None) →
      encodeJoinPool env args = Throw (Error_bigNumberToString false))
  ∧ (∀ args methodAbi,
        getVaultFunctionAbi env "exitPool" = Ok methodAbi →
        (∃ amount,
            amount ∈ ExitPoolRequest.minAmountsOut (ExitPoolArgs.request args)
            ∧ bigNumberToUint256String env amount = None) →
        encodeExitPool env args = Throw (Error_bigNumberToString false))
  ∧ (∀ args methodAbi,
        getVaultFunctionAbi env "swap" = Ok methodAbi →
        bigNumberToUint256String env (SingleSwap.amount (SwapArgs.singleSwap args)) = None
        ∨ bigNumberToUint256String env (SwapArgs.limit args) = None →
        encodeSwap env args = Throw (Error_bigNumberToString false))
  ∧ (∀ args methodAbi,
        getVaultFunctionAbi env "batchSwap" = Ok methodAbi →
        (∃ swap,
            swap ∈ BatchSwapArgs.swaps args
            ∧ bigNumberToUint256String env (BatchSwapStep.amount swap) = None) →
        encodeBatchSwap env args = Throw (Error_bigNumberToString false))
  ∧ (∀ args methodAbi,
        getVaultFunctionAbi env "batchSwap" = Ok methodAbi →
        (∀ swap, swap ∈ BatchSwapArgs.swaps args →
                 is_Some (bigNumberToUint256String env (BatchSwapStep.amount swap))) →
        (∃ limit,
            limit ∈ BatchSwapArgs.limits args
            ∧ bigNumberToInt256String env limit = None) →
        encodeBatchSwap env args = Throw (Error_bigNumberToString true)).
Proof.
  assert (Hswap : ∀ swap,
    (swapTuple env swap = Throw (Error_bigNumberToString false)
     ∧ bigNumberToUint256String env (BatchSwapStep.amount swap) = None)
    ∨ (∃ o, swapTuple env swap = Ok o
            ∧ is_Some (bigNumberToUint256String env (BatchSwapStep.amount swap)))).
  { intros swap. unfold swapTuple.
    destruct (uint256String_cases env (BatchSwapStep.amount swap))
      as [[-> ?] | (s & -> & ->)]; simpl; eauto. }
  assert (Hlimit : ∀ limit,
    (int256String env limit = Throw (Error_bigNumberToString true)
     ∧ bigNumberToInt256String env limit = None)
    ∨ (∃ o, int256String env limit = Ok o
            ∧ is_Some (bigNumberToInt256String env limit))).
  { intros limit. unfold int256String.
    destruct (bigNumberToInt256String env limit); simpl; eauto. }
  split; [|split; [|split; [|split]]].
  - intros args methodAbi Habi Hrefused.
    unfold encodeJoinPool. rewrite Habi. simpl.
    assert (H : uint256Strings env
                  (JoinPoolRequest.maxAmountsIn (JoinPoolArgs.request args))
                = Throw (Error_bigNumberToString false))
      by (by apply uint256Strings_Throw_iff).
    by rewrite H.
  - intros args methodAbi Habi Hrefused.
    unfold encodeExitPool. rewrite Habi. simpl.
    assert (H : uint256Strings env
                  (ExitPoolRequest.minAmountsOut (ExitPoolArgs.request args))
                = Throw (Error_bigNumberToString false))
      by (by apply uint256Strings_Throw_iff).
    by rewrite H.
  - intros args methodAbi Habi Hrefused.
    unfold encodeSwap, encodeSwap_tuple. rewrite Habi. simpl.
    destruct (uint256String_cases env (SingleSwap.amount (SwapArgs.singleSwap args)))
      as [[-> _] | (a & -> & Ha)]; simpl; [done|].
    destruct (uint256String_cases env (SwapArgs.limit args))
      as [[-> _] | (l & _ & Hl)]; simpl; [done|].
    destruct Hrefused; congruence.
  - intros args methodAbi Habi (swap & Hin & Hnone).
    unfold encodeBatchSwap, encodeBatchSwap_tuple. rewrite Habi. simpl.
    assert (H : sequence (swapTuple env <$> BatchSwapArgs.swaps args)
                = Throw (Error_bigNumberToString false)).
    { apply (sequence_fmap_Throw_iff _ (Error_bigNumberToString false)).
      - intros s _. destruct (Hswap s) as [[? _] | (o & ? & _)]; eauto.
      - split; [done|]. exists swap. split; [done|].
        destruct (Hswap swap) as [[? _] | (o & _ & [a Ha])]; [done | congruence]. }
    by rewrite H.
  - intros args methodAbi Habi Hall (limit & Hin & Hnone).
    unfold encodeBatchSwap, encodeBatchSwap_tuple. rewrite Habi. simpl.
    destruct (sequence (swapTuple env <$> BatchSwapArgs.swaps args))
      as [swaps|e] eqn:Hswaps; simpl.
    + assert (H : int256Strings env (BatchSwapArgs.limits args)
                  = Throw (Error_bigNumberToString true)).
      { unfold int256Strings.
        apply (sequence_fmap_Throw_iff _ (Error_bigNumberToString true)).
        - intros l _. destruct (Hlimit l) as [[? _] | (o & ? & _)]; eauto.
        - split; [done|]. exists limit. split; [done|].
          destruct (Hlimit limit) as [[? _] | (o & _ & [a Ha])]; [done | congruence]. }
      by rewrite H.
    + apply (sequence_fmap_Throw_iff _ (Error_bigNumberToString false)) in Hswaps
        as (_ & swap & Hswapin & Hthrow).
      * destruct (Hall swap Hswapin) as [a Ha].
        destruct (Hswap swap) as [[_ ?] | (o & ? & _)]; congruence.
      * intros s _. destruct (Hswap s) as [[? _] | (o & ? & _)]; eauto.
Qed.

End Encoders.

Lemma encode_matches_simulation_witness :
  ∃ call,
    queryJoinPool_call ZapExamples.env QueryExamples.joinRequest = Ok call
    ∧ encodeJoinPool ZapExamples.env
        (AbiExamples.joinArgs Fixture.tokenA Fixture.tokenB
           [BigNumber.of_Z 10; BigNumber.of_Z 20])
      = encodeFunctionCall ZapExamples.env
          {| abi_type := "function"; abi_name := "joinPool" |}
          (<[1 := ArgString Fixture.tokenA]> (<[2 := ArgString Fixture.tokenB]> call)).
Proof.
  destruct (encode_matches_simulation ZapExamples.env) as [Hjoin _].
  eexists. split; [reflexivity|].
  rewrite (Hjoin (AbiExamples.joinArgs Fixture.tokenA Fixture.tokenB
                    [BigNumber.of_Z 10; BigNumber.of_Z 20])
             (Some Fixture.tokenA) (Some Fixture.tokenB) _ eq_refl).
  reflexivity.
Defined.

Lemma missing_function_comes_first_witness :
  getJoinPoolZap AbiExamples.withoutFunctions Fixture.config (ZapExamples.join true)
  = Throw (Error_FunctionNotInAbi "joinPool")
  ∧ getExitPoolZap AbiExamples.withoutFunctions Fixture.config (ZapExamples.exit x63 true)
    = Throw (Error_FunctionNotInAbi "exitPool")
  ∧ getSwapZap AbiExamples.withoutFunctions Fixture.config (ZapExamples.swap true)
    = Throw (Error_FunctionNotInAbi "swap").
Proof.
  assert (Hevents : ∀ name abi,
    abi ∈ BalancerVaultAbi AbiExamples.withoutFunctions → ¬ is_function name abi).
  { intros name abi Hin [Htype _].
    apply elem_of_cons in Hin as [-> | Hin]; [discriminate|].
    apply list_elem_of_singleton in Hin as ->. discriminate. }
  destruct (missing_function_comes_first AbiExamples.withoutFunctions Fixture.config)
    as (Hjoin & Hexit & Hswap & _).
  split; [|split].
  - apply Hjoin, Hevents.
  - apply Hexit, Hevents.
  - apply Hswap, Hevents.
Defined.

Lemma encoder_refused_amount_witness :
  encodeJoinPool ZapExamples.env
    (AbiExamples.joinArgs Fixture.tokenA Fixture.tokenA
       [BigNumber.of_Z 10; BigNumber.of_Z (-1)])
  = Throw (Error_bigNumberToString false)
  ∧ encodeSwap ZapExamples.env (SwapExamples.swap (BigNumber.of_Z (-1)))
    = Throw (Error_bigNumberToString false)
  ∧ encodeBatchSwap ZapExamples.env
      (AbiExamples.batchArgs (BigNumber.of_Z 5) [BigNumber.of_Z (-1); BigNumber.of_Z (2 ^ 255)])
    = Throw (Error_bigNumberToString true).
Proof.
  destruct (encoder_refused_amount ZapExamples.env)
    as (Hjoin & _ & Hswap & _ & Hlimits).
  split; [|split].
  - eapply Hjoin; [reflexivity|].
    exists (BigNumber.of_Z (-1)). split; [right; left | reflexivity].
  - eapply Hswap; [reflexivity|]. by right.
  - eapply Hlimits; [reflexivity | |].
    + intros swap ->%list_elem_of_singleton. by eexists.
    + exists (BigNumber.of_Z (2 ^ 255)). split; [right; left | vm_compute; reflexivity].
Defined.

(** ** What the zap builders return *)

Section ZapSteps.

Variable env : Services.
Variable config : VaultConfig.

(** X13: [getSwapZap] returns exactly when the swap encodes, and the
    step is then addressed to the configured vault with value "0" and
    the encoded call as data; its only insertion, present exactly when
    balance insertion is enabled, names the input asset of the swap at
    word 7 + 4, whatever else the request holds. *)
Theorem getSwapZap_spec request step :
  getSwapZap env config request = Ok step
  ↔ ∃ data,
      encodeSwap env (SwapZapRequest.swap request) = Ok data
      ∧ step
        = {| ZapStep.target := vaultAddress config;
             ZapStep.value := "0";
             ZapStep.data := data;
             ZapStep.tokens :=
               if SwapZapRequest.insertBalance request
               then [ {| StepToken.token :=
                           SingleSwap.assetIn
                             (SwapArgs.singleSwap (SwapZapRequest.swap request));
                         StepToken.index := getInsertIndex env 11 |} ]
               else [] |}.
Proof.
  unfold getSwapZap. split.
  - intros (data & Hdata & [= <-])%bind_Ok_inv. eauto.
  - intros (data & -> & ->). reflexivity.
Qed.

(** X14: the insertions of an exit step, when there are any, are a
    single one: its token is the pool address of the request, and it
    sits one or two words into [userData], the latter exactly for a
    leading word of 2. *)
Theorem getExitPoolZapTokens_shape request tokens :
  getExitPoolZapTokens env request = Ok tokens →
  let exitRequest := ExitPoolArgs.request (ExitPoolZapRequest.exit request) in
  let userDataWordStart :=
    (9 + Z.of_nat (length (ExitPoolRequest.assets exitRequest)) + 1
     + Z.of_nat (length (ExitPoolRequest.minAmountsOut exitRequest)) + 1)%Z in
  (ExitPoolZapRequest.insertBalance request = false ∧ tokens = [])
  ∨ (ExitPoolZapRequest.insertBalance request = true
     ∧ ∃ exitKind offset,
         decodeParameter_uint256 (ExitPoolRequest.userData exitRequest) = Ok exitKind
         ∧ ((exitKind = 0%Z ∨ exitKind = 1%Z) ∧ offset = 1%Z
            ∨ exitKind = 2%Z ∧ offset = 2%Z)
         ∧ tokens
           = [ {| StepToken.token := ExitPoolZapRequest.poolAddress request;
                  StepToken.index :=
                    getInsertIndex env (userDataWordStart + offset)%Z |} ]).
Proof.
  intros Htokens exitRequest userDataWordStart.
  unfold getExitPoolZapTokens in Htokens.
  destruct (ExitPoolZapRequest.insertBalance request); simpl in Htokens.
  - right. split; [done|].
    apply bind_Ok_inv in Htokens as (exitKind & Hdecode & Htokens).
    exists exitKind.
    unfold WeightedPoolExitKind.EXACT_BPT_IN_FOR_TOKENS_OUT,
      WeightedPoolExitKind.EXACT_BPT_IN_FOR_ONE_TOKEN_OUT,
      WeightedPoolExitKind.BPT_IN_FOR_EXACT_TOKENS_OUT in Htokens.
    simpl in Htokens. rewrite !toNumber_case in Htokens by lia.
    destruct (exitKind =? 0)%Z eqn:H0.
    { apply Z.eqb_eq in H0. injection Htokens as <-. exists 1%Z.
      split; [done|]. split; [|done]. left. split; [by left | done]. }
    destruct (exitKind =? 1)%Z eqn:H1.
    { apply Z.eqb_eq in H1. injection Htokens as <-. exists 1%Z.
      split; [done|]. split; [|done]. left. split; [by right | done]. }
    destruct (exitKind =? 2)%Z eqn:H2.
    { apply Z.eqb_eq in H2. injection Htokens as <-. exists 2%Z.
      split; [done|]. split; [|done]. by right. }
    discriminate.
  - left. by injection Htokens as <-.
Qed.

(** X15: with balance insertion enabled and a [getInsertIndex] that
    sends different words to different indexes, the insertions of a
    join step name the assets of the request in order and no two of
    them share an index, also when the request names an asset twice. *)
Theorem getJoinPoolZap_insertions_distinct request step :
  (∀ v w, getInsertIndex env v = getInsertIndex env w → v = w) →
  JoinPoolZapRequest.insertBalance request = true →
  getJoinPoolZap env config request = Ok step →
  StepToken.token <$> ZapStep.tokens step
  = JoinPoolRequest.assets (JoinPoolArgs.request (JoinPoolZapRequest.join request))
  ∧ NoDup (StepToken.index <$> ZapStep.tokens step).
Proof.
  intros Hinj Hinsert (_ & _ & _ & Htokens)%getJoinPoolZap_Ok_inv.
  rewrite Hinsert in Htokens. rewrite Htokens. split.
  - apply list_eq. intros i.
    rewrite list_lookup_fmap, list_lookup_imap.
    by destruct (_ !! i).
  - apply NoDup_alt. intros i j index Hi Hj.
    rewrite list_lookup_fmap, list_lookup_imap in Hi, Hj.
    destruct (_ !! i) as [a|]; [|done].
    destruct (_ !! j) as [b|]; [|done].
    simpl in Hi, Hj. injection Hi as <-. injection Hj as Hj.
    apply Hinj in Hj. lia.
Qed.

End ZapSteps.

Lemma getSwapZap_spec_witness :
  getSwapZap ZapExamples.env Fixture.config (ZapExamples.swap true)
  = Ok {| ZapStep.target := vaultAddress Fixture.config;
          ZapStep.value := "0";
          ZapStep.data := "call:swap";
          ZapStep.tokens :=
            [ {| StepToken.token := Fixture.tokenA; StepToken.index := 356 |} ] |}.
Proof.
  apply (getSwapZap_spec ZapExamples.env Fixture.config (ZapExamples.swap true)).
  exists "call:swap". split; reflexivity.
Defined.

Lemma getExitPoolZapTokens_shape_witness :
  ∃ tokens,
    getExitPoolZapTokens ZapExamples.env (ZapExamples.exit x02 true) = Ok tokens
    ∧ tokens = [ {| StepToken.token := ZapExamples.poolToken;
                    StepToken.index := Zap.getInsertIndex 17 |} ].
Proof.
  eexists. split; [reflexivity|].
  destruct (getExitPoolZapTokens_shape ZapExamples.env (ZapExamples.exit x02 true)
              _ eq_refl) as [[Hoff _] | (_ & exitKind & offset & _ & _ & Htokens)].
  - discriminate Hoff.
  - reflexivity.
Defined.

Lemma getJoinPoolZap_insertions_distinct_witness :
  ∃ step,
    getJoinPoolZap ZapExamples.env Fixture.config DuplicateAssetExamples.join = Ok step
    ∧ StepToken.token <$> ZapStep.tokens step = [Fixture.tokenA; Fixture.tokenA]
    ∧ NoDup (StepToken.index <$> ZapStep.tokens step).
Proof.
  eexists. split; [reflexivity|].
  apply (getJoinPoolZap_insertions_distinct ZapExamples.env Fixture.config
           DuplicateAssetExamples.join);
    [|reflexivity|reflexivity].
  intros v w. unfold ZapExamples.env, Fixture.services, Zap.getInsertIndex. simpl. lia.
Defined.

(** ** Addresses the normaliser refuses *)

Lemma sequence_first_Throw {A} (rs : list (Result A)) (i : nat) (e : Error) :
  rs !! i = Some (Throw e) →
  (∀ j r, j < i → rs !! j = Some r → ∃ a, r = Ok a) →
  sequence rs = Throw e.
Proof.
  revert i. induction rs as [|r rs IH]; intros i Hi Hbefore; [done|].
  destruct i as [|i]; simpl in *.
  - by injection Hi as ->.
  - destruct (Hbefore 0 r) as [a ->]; [lia | done |]. simpl.
    rewrite (IH i Hi); [done|].
    intros j r' Hj Hr'. apply (Hbefore (S j) r'); [lia | done].
Qed.

(** X16: a well-shaped answer with a token that the address normaliser
    refuses makes [getPoolTokens] throw the normaliser's error for the
    first such token in the order of the answer; no list is returned,
    not even for the tokens before it. *)
Theorem getPoolTokens_refused_address env poolId result i token :
  vault_getPoolTokens env poolId = Ok result →
  getPoolTokens_invalid result = false →
  elements (result_tokens result) !! i = Some token →
  getAddress env token = None →
  (∀ j earlier, j < i → elements (result_tokens result) !! j = Some earlier →
                is_Some (getAddress env earlier)) →
  getPoolTokens env poolId = Throw (Error_getAddress token).
Proof.
  intros Hcall Hvalid Hi Hrefused Hbefore.
  unfold getPoolTokens. rewrite Hcall. simpl.
  unfold getPoolTokens_then. rewrite Hvalid.
  apply (sequence_first_Throw _ i).
  - rewrite list_lookup_imap, Hi. simpl. by rewrite Hrefused.
  - intros j r Hj Hr. rewrite list_lookup_imap in Hr.
    destruct (elements (result_tokens result) !! j) as [earlier|] eqn:Hearlier; [|done].
    simpl in Hr. injection Hr as <-.
    destruct (Hbefore j earlier Hj Hearlier) as [address ->]. simpl. eauto.
Qed.

Lemma getPoolTokens_refused_address_witness :
  getPoolTokens AddressExamples.strict "0x01" = Throw (Error_getAddress "0xabc").
Proof.
  eapply (getPoolTokens_refused_address AddressExamples.strict "0x01" _ 1 "0xabc");
    [reflexivity | reflexivity | reflexivity | reflexivity |].
  intros [|j] earlier Hj Hearlier; [|lia].
  injection Hearlier as <-. by eexists.
Defined.

(** ** The connection behind the contract bindings *)

Module FactoryConnectionFacts.

Import Factory.

Lemma fresh_connected : connected fresh.
Proof. intros f p Hf. discriminate Hf. Qed.

Lemma requestWeb3_connected c : connected (requestWeb3 c).1.
Proof.
  intros f p _. rewrite FactoryFacts.requestWeb3_handed. by eexists.
Qed.

Lemma requestContract_connected f c :
  connected c → connected (requestContract f c).1.
Proof.
  intros Hc. unfold requestContract.
  destruct (cache c f) eqn:Ef; [done|].
  destruct (enter f c) as [c1 p1].
  pose proof (FactoryFacts.requestWeb3_handed c1) as Hweb3.
  destruct (requestWeb3 c1) as [c2 p2]. simpl in *.
  intros g q _. simpl. rewrite Hweb3. by eexists.
Qed.

Lemma request_connected f c : connected c → connected (request f c).1.
Proof.
  destruct f; simpl; intros Hc.
  - apply requestWeb3_connected.
  - by apply requestContract_connected.
  - by apply requestContract_connected.
Qed.

Lemma resume_connected c : connected c → connected (resume c).
Proof.
  intros Hc f p. rewrite FactoryFacts.resume_cache. apply Hc.
Qed.

Lemma run_connected schedule c c' log :
  connected c → run c schedule = (c', log) → connected c'.
Proof.
  revert c c' log.
  induction schedule as [|e rest IH]; intros c c' log Hc; simpl.
  - by intros [= <- <-].
  - destruct e as [f|].
    + pose proof (request_connected f c Hc) as Hc1.
      destruct (request f c) as [c1 p1].
      destruct (run c1 rest) as [c2 log2] eqn:Hrun.
      intros [= <- <-]. by eapply IH.
    + intros Hrun. eapply IH; [|exact Hrun]. by apply resume_connected.
Qed.

End FactoryConnectionFacts.

(** X17: both contract bindings sit on one connection.  Along every
    interleaving on a fresh client, as soon as any factory has been
    requested, be it only a contract binding, the connection factory has
    been entered exactly once and has built exactly one connection. *)
Theorem lazy_factories_share_connection (schedule : list Factory.event) :
  let c := (Factory.run Factory.fresh schedule).1 in
  let log := (Factory.run Factory.fresh schedule).2 in
  ∀ f p,
    (f, p) ∈ log →
    Factory.bodies c Factory.Web3 = 1
    ∧ Factory.built c Factory.Web3 = 1
    ∧ is_Some (Factory.cache c Factory.Web3).
Proof.
  intros c log f p Hin.
  assert (Hrun : Factory.run Factory.fresh schedule = (c, log))
    by (subst c log; by destruct (Factory.run Factory.fresh schedule)).
  destruct (FactoryFacts.run_invariant schedule Factory.fresh c log
              FactoryFacts.fresh_consistent Hrun)
    as ([Hbodies Hweb3 _ _] & _ & Hlog).
  pose proof (FactoryConnectionFacts.run_connected schedule Factory.fresh c log
                FactoryConnectionFacts.fresh_connected Hrun) as Hconnected.
  destruct (Hconnected f p (Hlog f p Hin)) as [q Hq].
  rewrite Hweb3, Hbodies, Hq. eauto.
Qed.

Lemma lazy_factories_share_connection_witness :
  let c := (Factory.run Factory.fresh
              [Factory.Request Factory.QueryContract;
               Factory.Request Factory.VaultContract]).1 in
  Factory.bodies c Factory.Web3 = 1
  ∧ Factory.built c Factory.Web3 = 1
  ∧ is_Some (Factory.cache c Factory.Web3).
Proof.
  apply (lazy_factories_share_connection
           [Factory.Request Factory.QueryContract;
            Factory.Request Factory.VaultContract]
           Factory.VaultContract 2).
  right. left.
Defined.

(** ** The empty-state screen *)

(** X18: the connect button is rendered exactly when no wallet address
    is known, and one click on a rendered button always asks for a
    wallet connection: the disconnect branch of the click handler is
    never reached from this screen, which shows a link to the vault
    list instead whenever an address is known. *)
Theorem NoResults_button_connects (t : string → string) (error : bool)
    (walletAddress : option string) :
  (∀ onClick label,
      NoResults.actions (NoResults.render t error walletAddress)
      = NoResults.Button onClick label →
      onClick = NoResults.askForWalletConnection)
  ∧ ((∃ onClick label,
         NoResults.actions (NoResults.render t error walletAddress)
         = NoResults.Button onClick label)
     ↔ NoResults.truthy walletAddress = false)
  ∧ (NoResults.actions (NoResults.render t error walletAddress)
     = NoResults.ButtonLink "/" (t "NoResults-ViewAllVaults")
     ↔ NoResults.truthy walletAddress = true).
Proof.
  unfold NoResults.render, NoResults.handleWalletConnect. simpl.
  destruct (NoResults.truthy walletAddress); simpl.
  - split; [discriminate|]. split; [|done].
    split; [by intros (? & ? & [=]) | discriminate].
  - split; [by intros onClick label [= <- _]|]. split; [|split; discriminate].
    split; [done | eauto].
Qed.
